(** * seller-apis: stock and price synchronisation for Ozon and Yandex Market

    A shallow embedding of [seller.py] and [market.py] and the properties of
    their reconciliation logic.

    Python strings are embedded as Rocq [string]s holding the UTF-8 bytes of
    the text.  Every character the two scripts inspect (".", "0".."9", ">",
    "_", signs and ASCII white space) is a single byte below 128, and no byte
    of a multi-byte character is below 128, so splitting, filtering and
    comparing bytes agrees with splitting, filtering and comparing code
    points. *)

From stdpp Require Import base option strings list gmap pretty.
From Stdlib Require Import Ascii String ZArith Lia.

Open Scope string_scope.
Open Scope list_scope.
Open Scope nat_scope.

(** ** Python values and built-ins used by the scripts *)

Module Py.

(** Exception classes the scripts can meet.  The first two are the
    [requests.exceptions] classes the top-level handlers name; every class
    here derives from [Exception]. *)
Inductive exn : Type :=
| ReadTimeout
| ConnectionError
| HTTPError
| ValueError
| TypeError
| AttributeError
| EnvError
| OtherError (tag : string).

Inductive res (A : Type) : Type :=
| Ok (a : A)
| Raise (e : exn).
Arguments Ok {A} a.
Arguments Raise {A} e.

Global Instance res_ret : MRet res := λ A a, Ok a.

Global Instance res_bind : MBind res := λ A B k r,
  match r with
  | Ok a => k a
  | Raise e => Raise e
  end.

(** Cell values of a spreadsheet row as [pandas] hands them over: text, an
    integer, or nothing ([dict.get] on a missing key gives [None]).
    Floating-point cells are outside this embedding. *)
Inductive pyval : Type :=
| PNone
| PStr (s : string)
| PInt (z : Z).

(** Two things [int()] depends on that are settings or tables of the
    interpreter, not code of the repository, are parameters: what it makes
    of text holding a character outside ASCII (the Unicode character
    database decides which characters are digits or spaces), and the longest
    numeral it converts ([sys.get_int_max_str_digits()], where 0 means no
    limit). *)
Class Interpreter : Type := {
  int_of_non_ascii : string → option Z;
  int_max_str_digits : nat
}.

(** [str(v)]; the integers of spreadsheet cells are far shorter than any
    limit on printing numerals. *)
Definition str (v : pyval) : string :=
  match v with
  | PNone => "None"
  | PStr s => s
  | PInt z => pretty z
  end.

(** [d.get(k)] on a [dict] with string keys *)
Definition get (d : gmap string pyval) (k : string) : pyval :=
  default PNone (d !! k).

Definition is_digit (c : ascii) : bool :=
  bool_decide (is_Some (Ascii.is_nat c)).

Definition is_ascii (c : ascii) : bool :=
  (nat_of_ascii c <? 128)%nat.

(** White space [int()] skips around an ASCII numeral: TAB, LF, VT, FF, CR
    and the space. *)
Definition is_space (c : ascii) : bool :=
  let n := nat_of_ascii c in
  ((9 <=? n) && (n <=? 13) || (n =? 32))%nat.

Fixpoint lstrip (s : string) : string :=
  match s with
  | String c s' => if is_space c then lstrip s' else s
  | EmptyString => EmptyString
  end.

Fixpoint rstrip (s : string) : string :=
  match s with
  | String c s' =>
      match rstrip s' with
      | EmptyString => if is_space c then EmptyString else String c EmptyString
      | t => String c t
      end
  | EmptyString => EmptyString
  end.

Definition digit_val (c : ascii) : Z :=
  Z.of_nat (default 0%nat (Ascii.is_nat c)).

(** The digits of a decimal numeral after its first digit: single
    underscores may separate digits. *)
Fixpoint int_digits (acc : Z) (after_underscore : bool) (s : string) : option Z :=
  match s with
  | EmptyString => if after_underscore then None else Some acc
  | String c s' =>
      if is_digit c then int_digits (10 * acc + digit_val c) false s'
      else if bool_decide (c = "_"%char) && negb after_underscore
           then int_digits acc true s'
           else None
  end.

Definition int_unsigned (s : string) : option Z :=
  match s with
  | String c s' => if is_digit c then int_digits (digit_val c) false s' else None
  | EmptyString => None
  end.

Fixpoint count_digits (s : string) : nat :=
  match s with
  | String c s' => (if is_digit c then 1 else 0) + count_digits s'
  | EmptyString => 0
  end.

(** [int(s)] for ASCII text in base 10: surrounding white space, an
    optional sign, then the digits; a numeral of more than 640 digits that
    is longer than the interpreter's limit is refused. *)
Definition int_of_ascii `{Interpreter} (s : string) : option Z :=
  let t := rstrip (lstrip s) in
  if bool_decide (640 < count_digits t
                  ∧ int_max_str_digits ≠ 0 ∧ int_max_str_digits < count_digits t)
  then None
  else match t with
       | String "+" u => int_unsigned u
       | String "-" u => Z.opp <$> int_unsigned u
       | _ => int_unsigned t
       end.

Fixpoint all_ascii (s : string) : bool :=
  match s with
  | String c s' => is_ascii c && all_ascii s'
  | EmptyString => true
  end.

Definition int_of_str `{Interpreter} (s : string) : option Z :=
  if all_ascii s then int_of_ascii s else int_of_non_ascii s.

(** [int(v)] *)
Definition int `{Interpreter} (v : pyval) : res Z :=
  match v with
  | PNone => Raise TypeError
  | PInt z => Ok z
  | PStr s =>
      match int_of_str s with
      | Some z => Ok z
      | None => Raise ValueError
      end
  end.

(** [s.split(sep)] for a one-character separator: never an empty list. *)
Fixpoint split (sep : ascii) (s : string) : list string :=
  match s with
  | EmptyString => [EmptyString]
  | String c s' =>
      if bool_decide (c = sep) then EmptyString :: split sep s'
      else match split sep s' with
           | h :: t => String c h :: t
           | [] => [String c EmptyString]
           end
  end.

(** [re.sub("[^0-9]", "", s)]: every character outside the class 0-9 is a
    match and is replaced by nothing. *)
Fixpoint re_sub_non_digit (s : string) : string :=
  match s with
  | EmptyString => EmptyString
  | String c s' =>
      if is_digit c then String c (re_sub_non_digit s') else re_sub_non_digit s'
  end.

(** [l.remove(x)]: drops the first element equal to [x]; [None] stands for
    the [ValueError] raised when there is none. *)
Fixpoint remove (x : string) (l : list string) : option (list string) :=
  match l with
  | [] => None
  | y :: l' => if decide (y = x) then Some l' else cons y <$> remove x l'
  end.

(** The elements of [range(start, stop, step)] for a positive step:
    [count] of them, [step] apart. *)
Fixpoint range_elems (count start step : nat) : list nat :=
  match count with
  | O => []
  | S count' => start :: range_elems count' (start + step) step
  end.

(** [range(0, stop, step)]: a zero step is a [ValueError], a negative one
    gives no element (as [0 <= stop]), a positive one gives
    ceil([stop] / [step]) elements. *)
Definition range (stop : nat) (step : Z) : res (list nat) :=
  if (step =? 0)%Z then Raise ValueError
  else if (step <? 0)%Z then Ok []
  else
    let n := Z.to_nat step in
    Ok (range_elems ((stop + n - 1) / n) 0 n).

(** [lst[i:j]] for [0 <= i <= j]; bounds past the end are clipped. *)
Definition slice {A} (lst : list A) (i j : nat) : list A :=
  take (j - i) (drop i lst).

(** *** Running a script: requests sent, lines printed

    A script runs against the outside world.  The state of a run records how
    many requests were made so far (the world may answer the same request
    differently later), the requests in the order sent, and the lines
    printed.  A computation gives [None] when the fuel of a [while True] loop
    ran out before the loop ended, and otherwise a value or a raised
    exception together with the state reached. *)
Inductive line : Type :=
| Text (s : string)
| ErrorAnd (e : exn) (s : string).

Record run (R : Type) : Type := Run {
  clock : nat;
  sent : list R;
  stdout : list line
}.
Arguments Run {R} _ _ _.
Arguments clock {R} _.
Arguments sent {R} _.
Arguments stdout {R} _.

Definition io (R A : Type) : Type := run R → option (res A * run R).

Global Instance io_ret {R} : MRet (io R) := λ A a s, Some (Ok a, s).

Definition raise {R A} (e : exn) : io R A := λ s, Some (Raise e, s).

Global Instance io_bind {R} : MBind (io R) := λ A B k m s,
  match m s with
  | None => None
  | Some (Ok a, s') => k a s'
  | Some (Raise e, s') => Some (Raise e, s')
  end.

Definition lift {R A} (r : res A) : io R A :=
  match r with
  | Ok a => mret a
  | Raise e => raise e
  end.

(** One request to the outside: it is recorded, time advances, and the
    world's answer at that time is the result. *)
Definition call {R A} (req : R) (answer : nat → res A) : io R A :=
  λ s, Some (answer (clock s), Run (S (clock s)) (sent s ++ [req]) (stdout s)).

(** [print(...)]: one more line on the standard output, which is taken to
    accept it. *)
Definition print {R} (l : line) : io R unit :=
  λ s, Some (Ok tt, Run (clock s) (sent s) (stdout s ++ [l])).

(** [for x in xs: body(x)] *)
Fixpoint for_each {R A} (xs : list A) (body : A → io R unit) : io R unit :=
  match xs with
  | [] => mret tt
  | x :: xs' => body x;; for_each xs' body
  end.

(** [try: body / except ...: handler]: an exception of the body runs the
    handler, whose own result is the result. *)
Definition try_except {R} (body : io R unit) (handler : exn → io R unit) : io R unit :=
  λ s, match body s with
       | None => None
       | Some (Ok _, s') => Some (Ok tt, s')
       | Some (Raise e, s') => handler e s'
       end.

(** How the process ends once [main()] returned or raised: status 0 after a
    normal return, status 1 with a traceback after an exception that nothing
    caught. *)
Definition exit_status {R} (outcome : option (res unit * run R)) : option Z :=
  match outcome with
  | None => None
  | Some (Ok _, _) => Some 0%Z
  | Some (Raise _, _) => Some 1%Z
  end.

End Py.

Import Py.

(** A spreadsheet row: the [dict] of one record of [to_dict(orient="records")]. *)
Abbreviation watch := (gmap string pyval).

(** The column headers the scripts read. *)
Definition Код : string := "Код".
Definition Количество : string := "Количество".
Definition Цена : string := "Цена".

(** ** seller.py (Ozon) *)

Module Seller.

(** One product of a page of the product list; only its [offer_id] is read. *)
Record Product : Type := { offer_id : string }.

(** The ["result"] of one [/v2/product/list] response. *)
Record Page : Type := {
  items : list Product;
  total : Z;
  last_id : string
}.

(** [{"offer_id": ..., "stock": ...}] *)
Record Stock : Type := {
  stock_offer_id : string;
  stock : Z
}.

(** The price entry of [create_prices]. *)
Record Price : Type := {
  auto_action_enabled : string;
  currency_code : string;
  price_offer_id : string;
  old_price : string;
  price : string
}.

Inductive request : Type :=
| ProductList (last_id client_id seller_token : string)
| ImportPrices (prices : list Price) (client_id seller_token : string)
| ImportStocks (stocks : list Stock) (client_id seller_token : string)
| Ostatki.

(** The outside world of a run of [seller.py]: the environment variables
    and what each endpoint answers to a request made at a given time (a
    non-2xx status is [Raise HTTPError] through [raise_for_status]). *)
Record world : Type := {
  environ : string → option string;
  product_list : nat → string → string → string → res Page;
  import_prices : nat → list Price → string → string → res unit;
  import_stocks : nat → list Stock → string → string → res unit;
  ostatki : nat → res (list watch)
}.

(** [env.str(name)] of [environs]: an unset variable raises. *)
Definition env_str (w : world) (name : string) : io request string :=
  match environ w name with
  | Some v => mret v
  | None => raise EnvError
  end.

Definition get_product_list (w : world) (last_id client_id seller_token : string)
  : io request Page :=
  call (ProductList last_id client_id seller_token)
       (λ now, product_list w now last_id client_id seller_token).

(** The [while True] loop of [get_offer_ids], with fuel for its iterations. *)
Fixpoint get_offer_ids_loop (w : world) (fuel : nat) (client_id seller_token : string)
    (last_id : string) (product_list : list Product) : io request (list Product) :=
  match fuel with
  | O => λ _, None
  | S fuel' =>
      some_prod ← get_product_list w last_id client_id seller_token;
      let product_list := product_list ++ items some_prod in
      let total := total some_prod in
      let last_id := Seller.last_id some_prod in
      if bool_decide (total = Z.of_nat (List.length product_list))
      then mret product_list
      else get_offer_ids_loop w fuel' client_id seller_token last_id product_list
  end.

Definition get_offer_ids (w : world) (fuel : nat) (client_id seller_token : string)
  : io request (list string) :=
  product_list ← get_offer_ids_loop w fuel client_id seller_token "" [];
  mret (offer_id <$> product_list).

Definition update_price (w : world) (prices : list Price) (client_id seller_token : string)
  : io request unit :=
  call (ImportPrices prices client_id seller_token)
       (λ now, import_prices w now prices client_id seller_token).

Definition update_stocks (w : world) (stocks : list Stock) (client_id seller_token : string)
  : io request unit :=
  call (ImportStocks stocks client_id seller_token)
       (λ now, import_stocks w now stocks client_id seller_token).

Definition download_stock (w : world) : io request (list watch) :=
  call Ostatki (ostatki w).

(** The first loop of [create_stocks].  [offer_ids] is the list object the
    caller passed: [offer_ids.remove] changes it in place, so the loop
    returns its content at the end (or at the exception) next to the
    result. *)
Fixpoint create_stocks_loop `{Interpreter} (watch_remnants : list watch)
    (stocks : list Stock) (offer_ids : list string)
  : res (list Stock) * list string :=
  match watch_remnants with
  | [] => (Ok stocks, offer_ids)
  | watch :: rest =>
      if bool_decide (str (get watch Код) ∈ offer_ids) then
        let count := str (get watch Количество) in
        let stock :=
          if bool_decide (count = ">10") then Ok 100%Z
          else if bool_decide (count = "1") then Ok 0%Z
          else int (get watch Количество) in
        match stock with
        | Raise e => (Raise e, offer_ids)
        | Ok stock =>
            let stocks := stocks ++ [{| stock_offer_id := str (get watch Код);
                                        stock := stock |}] in
            match remove (str (get watch Код)) offer_ids with
            | Some offer_ids => create_stocks_loop rest stocks offer_ids
            | None => (Raise ValueError, offer_ids)
            end
        end
      else create_stocks_loop rest stocks offer_ids
  end.

(** [create_stocks(watch_remnants, offer_ids)]: the result, and the content
    of the caller's [offer_ids] list after the call. *)
Definition create_stocks `{Interpreter} (watch_remnants : list watch)
    (offer_ids : list string) : res (list Stock) * list string :=
  match create_stocks_loop watch_remnants [] offer_ids with
  | (Ok stocks, offer_ids) =>
      (Ok (stocks ++ ((λ offer_id, {| stock_offer_id := offer_id; stock := 0 |})
                        <$> offer_ids)),
       offer_ids)
  | (Raise e, offer_ids) => (Raise e, offer_ids)
  end.

(** [price_conversion(price)], for [price] a [str] *)
Definition price_conversion (price : string) : string :=
  match split "." price with
  | integer_part :: _ => re_sub_non_digit integer_part
  | [] => EmptyString (* [split] never returns an empty list *)
  end.

(** [price_conversion] applied to a cell: only text has [split]. *)
Definition price_conversion_cell (price : pyval) : res string :=
  match price with
  | PStr s => Ok (price_conversion s)
  | _ => Raise AttributeError
  end.

Fixpoint create_prices_loop (watch_remnants : list watch) (prices : list Price)
    (offer_ids : list string) : res (list Price) :=
  match watch_remnants with
  | [] => Ok prices
  | watch :: rest =>
      if bool_decide (str (get watch Код) ∈ offer_ids) then
        p ← price_conversion_cell (get watch Цена);
        let price := {| auto_action_enabled := "UNKNOWN";
                        currency_code := "RUB";
                        price_offer_id := str (get watch Код);
                        old_price := "0";
                        price := p |} in
        create_prices_loop rest (prices ++ [price]) offer_ids
      else create_prices_loop rest prices offer_ids
  end.

(** [create_prices(watch_remnants, offer_ids)]; [offer_ids] is only read. *)
Definition create_prices (watch_remnants : list watch) (offer_ids : list string)
  : res (list Price) :=
  create_prices_loop watch_remnants [] offer_ids.

(** [list(divide(lst, n))]: the chunks the generator yields, in order. *)
Definition divide {A} (lst : list A) (n : Z) : res (list (list A)) :=
  match range (List.length lst) n with
  | Ok idx => Ok (map (λ i, slice lst i (i + Z.to_nat n)) idx)
  | Raise e => Raise e
  end.

(** The [except] clauses that close [main]. *)
Definition handler (error : exn) : io request unit :=
  match error with
  | ReadTimeout => print (Text "Превышено время ожидания...")
  | ConnectionError => print (ErrorAnd error "Ошибка соединения")
  | _ => print (ErrorAnd error "ERROR_2")
  end.

(** [main()] *)
Definition main `{Interpreter} (w : world) (fuel : nat) : io request unit :=
  seller_token ← env_str w "SELLER_TOKEN";
  client_id ← env_str w "CLIENT_ID";
  try_except
    (offer_ids ← get_offer_ids w fuel client_id seller_token;
     watch_remnants ← download_stock w;
     let '(stocks, offer_ids) := create_stocks watch_remnants offer_ids in
     stocks ← lift stocks;
     batches ← lift (divide stocks 100);
     for_each batches (λ some_stock, update_stocks w some_stock client_id seller_token);;
     prices ← lift (create_prices watch_remnants offer_ids);
     batches ← lift (divide prices 900);
     for_each batches (λ some_price, update_price w some_price client_id seller_token))
    handler.

(** [upload_prices] and [upload_stocks] are coroutine functions: these are
    the computations their coroutines run once awaited. *)
Definition upload_prices (w : world) (fuel : nat) (watch_remnants : list watch)
    (client_id seller_token : string) : io request (list Price) :=
  offer_ids ← get_offer_ids w fuel client_id seller_token;
  prices ← lift (create_prices watch_remnants offer_ids);
  batches ← lift (divide prices 1000);
  for_each batches (λ some_price, update_price w some_price client_id seller_token);;
  mret prices.

Definition upload_stocks `{Interpreter} (w : world) (fuel : nat)
    (watch_remnants : list watch) (client_id seller_token : string)
  : io request (list Stock * list Stock) :=
  offer_ids ← get_offer_ids w fuel client_id seller_token;
  stocks ← lift (create_stocks watch_remnants offer_ids).1;
  batches ← lift (divide stocks 100);
  for_each batches (λ some_stock, update_stocks w some_stock client_id seller_token);;
  let not_empty := filter (λ stock, Seller.stock stock ≠ 0%Z) stocks in
  mret (not_empty, stocks).

(** The two steps of a reconciliation run on a catalog list held in the
    store of list objects: [create_stocks] then [create_prices] on the same
    object.  [None] when the reference is dangling. *)
Definition reconcile `{Interpreter} (watch_remnants : list watch) (offer_ids : positive)
    (heap : gmap positive (list string))
  : option (res (list Stock * list Price) * gmap positive (list string)) :=
  ids ← heap !! offer_ids;
  let '(stocks, ids') := create_stocks watch_remnants ids in
  let heap := <[offer_ids := ids']> heap in
  Some (stocks ← stocks;
        prices ← create_prices watch_remnants ids';
        Ok (stocks, prices),
        heap).

End Seller.

(** ** market.py (Yandex Market) *)

Module Market.

(** One entry of [offerMappingEntries]; only [offer.shopSku] is read. *)
Record Entry : Type := { shopSku : string }.

(** The ["result"] of one [offer-mapping-entries] response;
    [nextPageToken] is [paging.nextPageToken], [None] when the key is
    missing. *)
Record Page : Type := {
  offerMappingEntries : list Entry;
  nextPageToken : option string
}.

Record Item : Type := {
  count : Z;
  type : string;
  updatedAt : string
}.

Record Sku : Type := {
  sku : string;
  warehouseId : string;
  items : list Item
}.

Record PriceValue : Type := {
  value : Z;
  currencyId : string
}.

Record Price : Type := {
  id : string;
  price : PriceValue
}.

Inductive request : Type :=
| OfferMappingEntries (page campaign_id access_token : string)
| PutStocks (stocks : list Sku) (campaign_id access_token : string)
| PostPrices (prices : list Price) (campaign_id access_token : string)
| Ostatki.

(** The outside world of a run of [market.py]; [utcnow] is the text
    [create_stocks] builds from the clock at a given time. *)
Record world : Type := {
  environ : string → option string;
  offer_mapping_entries : nat → string → string → string → res Page;
  put_stocks : nat → list Sku → string → string → res unit;
  post_prices : nat → list Price → string → string → res unit;
  ostatki : nat → res (list watch);
  utcnow : nat → string
}.

Definition env_str (w : world) (name : string) : io request string :=
  match environ w name with
  | Some v => mret v
  | None => raise EnvError
  end.

Definition get_product_list (w : world) (page campaign_id access_token : string)
  : io request Page :=
  call (OfferMappingEntries page campaign_id access_token)
       (λ now, offer_mapping_entries w now page campaign_id access_token).

Definition update_stocks (w : world) (stocks : list Sku) (campaign_id access_token : string)
  : io request unit :=
  call (PutStocks stocks campaign_id access_token)
       (λ now, put_stocks w now stocks campaign_id access_token).

Definition update_price (w : world) (prices : list Price) (campaign_id access_token : string)
  : io request unit :=
  call (PostPrices prices campaign_id access_token)
       (λ now, post_prices w now prices campaign_id access_token).

(** [download_stock] imported from [seller] *)
Definition download_stock (w : world) : io request (list watch) :=
  call Ostatki (ostatki w).

(** [not page]: a missing token and an empty one are both false values. *)
Definition falsy (page : option string) : bool :=
  match page with
  | None => true
  | Some t => bool_decide (t = "")
  end.

(** The [while True] loop of [get_offer_ids], with fuel for its iterations.
    The token of a page that ends the loop is no longer used, so the next
    cursor is only formed when the loop goes on. *)
Fixpoint get_offer_ids_loop (w : world) (fuel : nat) (campaign_id market_token : string)
    (page : string) (product_list : list Entry) : io request (list Entry) :=
  match fuel with
  | O => λ _, None
  | S fuel' =>
      some_prod ← get_product_list w page campaign_id market_token;
      let product_list := product_list ++ offerMappingEntries some_prod in
      let page := nextPageToken some_prod in
      if falsy page
      then mret product_list
      else get_offer_ids_loop w fuel' campaign_id market_token (default "" page)
             product_list
  end.

Definition get_offer_ids (w : world) (fuel : nat) (campaign_id market_token : string)
  : io request (list string) :=
  product_list ← get_offer_ids_loop w fuel campaign_id market_token "" [];
  mret (shopSku <$> product_list).

(** The first loop of [create_stocks]; as in [seller.py], [offer_ids.remove]
    changes the caller's list in place.  [date] is the text of the clock
    reading the function takes before the loop. *)
Fixpoint create_stocks_loop `{Interpreter} (watch_remnants : list watch)
    (stocks : list Sku) (offer_ids : list string) (warehouse_id date : string)
  : res (list Sku) * list string :=
  match watch_remnants with
  | [] => (Ok stocks, offer_ids)
  | watch :: rest =>
      if bool_decide (str (get watch Код) ∈ offer_ids) then
        let count := str (get watch Количество) in
        let stock :=
          if bool_decide (count = ">10") then Ok 100%Z
          else if bool_decide (count = "1") then Ok 0%Z
          else int (get watch Количество) in
        match stock with
        | Raise e => (Raise e, offer_ids)
        | Ok stock =>
            let stocks :=
              stocks ++ [{| sku := str (get watch Код);
                            warehouseId := warehouse_id;
                            items := [{| count := stock;
                                         type := "FIT";
                                         updatedAt := date |}] |}] in
            match remove (str (get watch Код)) offer_ids with
            | Some offer_ids => create_stocks_loop rest stocks offer_ids warehouse_id date
            | None => (Raise ValueError, offer_ids)
            end
        end
      else create_stocks_loop rest stocks offer_ids warehouse_id date
  end.

Definition create_stocks `{Interpreter} (watch_remnants : list watch)
    (offer_ids : list string) (warehouse_id date : string)
  : res (list Sku) * list string :=
  match create_stocks_loop watch_remnants [] offer_ids warehouse_id date with
  | (Ok stocks, offer_ids) =>
      (Ok (stocks ++ ((λ offer_id, {| sku := offer_id;
                                      warehouseId := warehouse_id;
                                      items := [{| count := 0;
                                                   type := "FIT";
                                                   updatedAt := date |}] |})
                        <$> offer_ids)),
       offer_ids)
  | (Raise e, offer_ids) => (Raise e, offer_ids)
  end.

(** [int(price_conversion(watch.get("Цена")))]; the text [price_conversion]
    returns has ASCII digits only. *)
Definition price_value `{Interpreter} (price : pyval) : res Z :=
  p ← Seller.price_conversion_cell price;
  int (PStr p).

Fixpoint create_prices_loop `{Interpreter} (watch_remnants : list watch)
    (prices : list Price) (offer_ids : list string) : res (list Price) :=
  match watch_remnants with
  | [] => Ok prices
  | watch :: rest =>
      if bool_decide (str (get watch Код) ∈ offer_ids) then
        v ← price_value (get watch Цена);
        let price := {| id := str (get watch Код);
                        price := {| value := v; currencyId := "RUR" |} |} in
        create_prices_loop rest (prices ++ [price]) offer_ids
      else create_prices_loop rest prices offer_ids
  end.

Definition create_prices `{Interpreter} (watch_remnants : list watch)
    (offer_ids : list string) : res (list Price) :=
  create_prices_loop watch_remnants [] offer_ids.

(** The clock reading of [create_stocks], taken when it is called. *)
Definition now (w : world) : io request string :=
  λ s, Some (Ok (utcnow w (clock s)), s).

(** The computations the coroutines of [upload_prices] and [upload_stocks]
    run once awaited. *)
Definition upload_prices `{Interpreter} (w : world) (fuel : nat)
    (watch_remnants : list watch) (campaign_id market_token : string)
  : io request (list Price) :=
  offer_ids ← get_offer_ids w fuel campaign_id market_token;
  prices ← lift (create_prices watch_remnants offer_ids);
  batches ← lift (Seller.divide prices 500);
  for_each batches (λ some_prices, update_price w some_prices campaign_id market_token);;
  mret prices.

Definition upload_stocks `{Interpreter} (w : world) (fuel : nat)
    (watch_remnants : list watch) (campaign_id market_token warehouse_id : string)
  : io request (list Sku * list Sku) :=
  offer_ids ← get_offer_ids w fuel campaign_id market_token;
  date ← now w;
  stocks ← lift (create_stocks watch_remnants offer_ids warehouse_id date).1;
  batches ← lift (Seller.divide stocks 2000);
  for_each batches (λ some_stock, update_stocks w some_stock campaign_id market_token);;
  let not_empty :=
    filter (λ stock, (count <$> items stock !! 0%nat) ≠ Some 0%Z) stocks in
  mret (not_empty, stocks).

Definition handler (error : exn) : io request unit :=
  match error with
  | ReadTimeout => print (Text "Превышено время ожидания...")
  | ConnectionError => print (ErrorAnd error "Ошибка соединения")
  | _ => print (ErrorAnd error "ERROR_2")
  end.

(** [main()].  [download_stock()] is called before the [try] statement.
    [upload_prices(...)] is called without [await]: the call only builds a
    coroutine object, which [main] drops, so its computation is bound here
    and never run. *)
Definition main `{Interpreter} (w : world) (fuel : nat) : io request unit :=
  market_token ← env_str w "MARKET_TOKEN";
  campaign_fbs_id ← env_str w "FBS_ID";
  campaign_dbs_id ← env_str w "DBS_ID";
  warehouse_fbs_id ← env_str w "WAREHOUSE_FBS_ID";
  warehouse_dbs_id ← env_str w "WAREHOUSE_DBS_ID";
  watch_remnants ← download_stock w;
  try_except
    (offer_ids ← get_offer_ids w fuel campaign_fbs_id market_token;
     date ← now w;
     stocks ← lift (create_stocks watch_remnants offer_ids warehouse_fbs_id date).1;
     batches ← lift (Seller.divide stocks 2000);
     for_each batches (λ some_stock, update_stocks w some_stock campaign_fbs_id market_token);;
     let coroutine := upload_prices w fuel watch_remnants campaign_fbs_id market_token in
     offer_ids ← get_offer_ids w fuel campaign_dbs_id market_token;
     date ← now w;
     stocks ← lift (create_stocks watch_remnants offer_ids warehouse_dbs_id date).1;
     batches ← lift (Seller.divide stocks 2000);
     for_each batches (λ some_stock, update_stocks w some_stock campaign_dbs_id market_token);;
     let coroutine := upload_prices w fuel watch_remnants campaign_dbs_id market_token in
     mret tt)
    handler.

End Market.

(** ** The specification's wording, for comparison *)

Module Spec.

(** The prefix of the input before the first "." (all of it when there is
    none). *)
Fixpoint before_first_dot (l : list ascii) : list ascii :=
  match l with
  | [] => []
  | c :: l' => if Ascii.eqb c "." then [] else c :: before_first_dot l'
  end.

Definition is_decimal_digit (c : ascii) : Prop :=
  (48 ≤ nat_of_ascii c ≤ 57)%nat.

Global Instance is_decimal_digit_dec c : Decision (is_decimal_digit c).
Proof. unfold is_decimal_digit. apply _. Defined.

(** normalizePrice: the prefix before the first ".", with every character
    that is not a decimal digit deleted. *)
Definition normalizePrice (raw : string) : string :=
  string_of_list_ascii
    (filter is_decimal_digit (before_first_dot (list_ascii_of_string raw))).

(** The number a string of decimal digits denotes, by the place value of
    each digit. *)
Fixpoint decimal_value (s : string) : Z :=
  match s with
  | EmptyString => 0
  | String c s' =>
      (Z.of_nat (nat_of_ascii c) - 48) * 10 ^ Z.of_nat (String.length s')
      + decimal_value s'
  end.

Fixpoint all_decimal_digits (s : string) : Prop :=
  match s with
  | EmptyString => True
  | String c s' => is_decimal_digit c ∧ all_decimal_digits s'
  end.

Fixpoint no_decimal_digit (s : string) : Prop :=
  match s with
  | EmptyString => True
  | String c s' => ¬ is_decimal_digit c ∧ no_decimal_digit s'
  end.

(** The code of a record: its [Код] cell as text. *)
Definition code (w : watch) : string := str (get w Код).

(** The quantity mapping: ">10" is 100, "1" is 0, anything else is read as
    an integer. *)
Definition mapped_count `{Interpreter} (w : watch) : res Z :=
  let quantity := str (get w Количество) in
  if decide (quantity = ">10") then Ok 100%Z
  else if decide (quantity = "1") then Ok 0%Z
  else int (get w Количество).

(** The Ozon stock entry of a matched record, and the one of an offer that
    no record matched. *)
Definition stock_entry (w : watch) (c : Z) : Seller.Stock :=
  {| Seller.stock_offer_id := code w; Seller.stock := c |}.

Definition zero_entry (offer_id : string) : Seller.Stock :=
  {| Seller.stock_offer_id := offer_id; Seller.stock := 0 |}.

(** The outcome of a call that emits [entry] first and then goes on as
    [next]. *)
Definition emit_then {S} (entry : S) (next : res (list S) * list string)
  : res (list S) * list string :=
  (match next.1 with Ok l => Ok (entry :: l) | Raise e => Raise e end, next.2).

(** The Ozon price entry of a record whose price text is [s]. *)
Definition ozon_price (w : watch) (s : string) : Seller.Price :=
  {| Seller.auto_action_enabled := "UNKNOWN";
     Seller.currency_code := "RUB";
     Seller.price_offer_id := code w;
     Seller.old_price := "0";
     Seller.price := Seller.price_conversion s |}.

(** [p] is the Ozon price entry of the record [w], whose price is text. *)
Definition priced (w : watch) (p : Seller.Price) : Prop :=
  ∃ s, get w Цена = PStr s ∧ p = ozon_price w s.

(** The Yandex stock entry that carries the same offer and count as an Ozon
    one. *)
Definition to_sku (warehouse_id date : string) (e : Seller.Stock) : Market.Sku :=
  {| Market.sku := Seller.stock_offer_id e;
     Market.warehouseId := warehouse_id;
     Market.items := [{| Market.count := Seller.stock e;
                         Market.type := "FIT";
                         Market.updatedAt := date |}] |}.

(** *** Paging through a catalog

    A run of pages: the world answers the request made at time [now] with
    cursor [cursor] by the first page, and the following requests, each
    with the cursor the page before gave, by the following pages. *)
Fixpoint ozon_answers (w : Seller.world) (now : nat) (client_id seller_token : string)
    (cursor : string) (pages : list Seller.Page) : Prop :=
  match pages with
  | [] => True
  | p :: ps =>
      Seller.product_list w now cursor client_id seller_token = Ok p
      ∧ ozon_answers w (S now) client_id seller_token (Seller.last_id p) ps
  end.

Fixpoint ozon_requests (client_id seller_token : string) (cursor : string)
    (pages : list Seller.Page) : list Seller.request :=
  match pages with
  | [] => []
  | p :: ps =>
      Seller.ProductList cursor client_id seller_token
      :: ozon_requests client_id seller_token (Seller.last_id p) ps
  end.

(** The Ozon signal, "the reported total equals the number of items
    accumulated", occurs at the last page of the run and at none before;
    [seen] items were accumulated before the run. *)
Fixpoint ozon_signal_at_last (seen : nat) (pages : list Seller.Page) : Prop :=
  match pages with
  | [] => False
  | p :: ps =>
      let seen := seen + List.length (Seller.items p) in
      match ps with
      | [] => Seller.total p = Z.of_nat seen
      | _ :: _ => Seller.total p ≠ Z.of_nat seen ∧ ozon_signal_at_last seen ps
      end
  end.

Definition yandex_cursor (p : Market.Page) : string :=
  default "" (Market.nextPageToken p).

Fixpoint yandex_answers (w : Market.world) (now : nat) (campaign_id market_token : string)
    (cursor : string) (pages : list Market.Page) : Prop :=
  match pages with
  | [] => True
  | p :: ps =>
      Market.offer_mapping_entries w now cursor campaign_id market_token = Ok p
      ∧ yandex_answers w (S now) campaign_id market_token (yandex_cursor p) ps
  end.

Fixpoint yandex_requests (campaign_id market_token : string) (cursor : string)
    (pages : list Market.Page) : list Market.request :=
  match pages with
  | [] => []
  | p :: ps =>
      Market.OfferMappingEntries cursor campaign_id market_token
      :: yandex_requests campaign_id market_token (yandex_cursor p) ps
  end.

(** A page carries no next-page token: the key is missing, or the token is
    the empty text. *)
Definition no_next_page (p : Market.Page) : Prop :=
  Market.nextPageToken p = None ∨ Market.nextPageToken p = Some "".

(** The Yandex signal occurs at the last page of the run and at none
    before. *)
Fixpoint yandex_signal_at_last (pages : list Market.Page) : Prop :=
  match pages with
  | [] => False
  | p :: ps =>
      match ps with
      | [] => no_next_page p
      | _ :: _ => ¬ no_next_page p ∧ yandex_signal_at_last ps
      end
  end.

Definition to_skus (warehouse_id date : string) (r : res (list Seller.Stock))
  : res (list Market.Sku) :=
  match r with
  | Ok stocks => Ok (map (to_sku warehouse_id date) stocks)
  | Raise e => Raise e
  end.

End Spec.

(** ** Sample data *)

Module Sample.

(** An interpreter with the default limit of 4300 digits; numerals with
    characters outside ASCII do not occur in the samples. *)
Definition interpreter : Interpreter :=
  {| int_of_non_ascii := λ _, None; int_max_str_digits := 4300 |}.

Definition record (code quantity price : string) : watch :=
  {[ Код := PStr code; Количество := PStr quantity; Цена := PStr price ]}.

(** A world for [seller.py]: every variable is set, the catalog comes in
    one page, the spreadsheet holds [records], every upload succeeds. *)
Definition ozon_world (catalog : list string) (records : list watch) : Seller.world :=
  {| Seller.environ := λ _, Some "secret";
     Seller.product_list := λ _ _ _ _,
       Ok {| Seller.items := Seller.Build_Product <$> catalog;
             Seller.total := Z.of_nat (List.length catalog);
             Seller.last_id := "" |};
     Seller.import_prices := λ _ _ _ _, Ok tt;
     Seller.import_stocks := λ _ _ _ _, Ok tt;
     Seller.ostatki := λ _, Ok records |}.

(** A world for [seller.py] whose catalog of three offers comes in two
    pages: "A" and "B" for the empty cursor, "C" for the cursor "B". *)
Definition ozon_world_two_pages : Seller.world :=
  {| Seller.environ := λ _, Some "secret";
     Seller.product_list := λ _ last_id _ _,
       if decide (last_id = "")
       then Ok {| Seller.items := Seller.Build_Product <$> ["A"; "B"];
                  Seller.total := 3;
                  Seller.last_id := "B" |}
       else Ok {| Seller.items := Seller.Build_Product <$> ["C"];
                  Seller.total := 3;
                  Seller.last_id := "C" |};
     Seller.import_prices := λ _ _ _ _, Ok tt;
     Seller.import_stocks := λ _ _ _ _, Ok tt;
     Seller.ostatki := λ _, Ok [] |}.

(** A world for [market.py] whose catalog comes in two pages, the first
    with the token "next", the second with an empty token. *)
Definition yandex_world_two_pages : Market.world :=
  {| Market.environ := λ _, Some "secret";
     Market.offer_mapping_entries := λ _ page _ _,
       if decide (page = "")
       then Ok {| Market.offerMappingEntries := Market.Build_Entry <$> ["A"; "B"];
                  Market.nextPageToken := Some "next" |}
       else Ok {| Market.offerMappingEntries := Market.Build_Entry <$> ["C"];
                  Market.nextPageToken := Some "" |};
     Market.put_stocks := λ _ _ _ _, Ok tt;
     Market.post_prices := λ _ _ _ _, Ok tt;
     Market.ostatki := λ _, Ok [];
     Market.utcnow := λ _, "2024-01-01T00:00:00Z" |}.

(** A world for [seller.py] whose server always answers one item and
    reports a total of 0, and a world for [market.py] whose server always
    answers with the token "next". *)
Definition ozon_world_short_total : Seller.world :=
  {| Seller.environ := λ _, Some "secret";
     Seller.product_list := λ _ _ _ _,
       Ok {| Seller.items := Seller.Build_Product <$> ["A"];
             Seller.total := 0;
             Seller.last_id := "A" |};
     Seller.import_prices := λ _ _ _ _, Ok tt;
     Seller.import_stocks := λ _ _ _ _, Ok tt;
     Seller.ostatki := λ _, Ok [] |}.

Definition yandex_world_endless : Market.world :=
  {| Market.environ := λ _, Some "secret";
     Market.offer_mapping_entries := λ _ _ _ _,
       Ok {| Market.offerMappingEntries := Market.Build_Entry <$> ["A"];
             Market.nextPageToken := Some "next" |};
     Market.put_stocks := λ _ _ _ _, Ok tt;
     Market.post_prices := λ _ _ _ _, Ok tt;
     Market.ostatki := λ _, Ok [];
     Market.utcnow := λ _, "2024-01-01T00:00:00Z" |}.

(** A world for [seller.py] in which [SELLER_TOKEN] is not set. *)
Definition ozon_world_no_token : Seller.world :=
  {| Seller.environ := λ name,
       if decide (name = "SELLER_TOKEN") then None else Some "secret";
     Seller.product_list := λ _ _ _ _, Raise ReadTimeout;
     Seller.import_prices := λ _ _ _ _, Ok tt;
     Seller.import_stocks := λ _ _ _ _, Ok tt;
     Seller.ostatki := λ _, Ok [] |}.

(** A world for [seller.py] whose catalog requests time out. *)
Definition ozon_world_timeout : Seller.world :=
  {| Seller.environ := λ _, Some "secret";
     Seller.product_list := λ _ _ _ _, Raise ReadTimeout;
     Seller.import_prices := λ _ _ _ _, Ok tt;
     Seller.import_stocks := λ _ _ _ _, Ok tt;
     Seller.ostatki := λ _, Ok [] |}.

(** A world for [market.py] with one offer "X" in either campaign and the
    spreadsheet holding [records]. *)
Definition yandex_world (records : list watch) : Market.world :=
  {| Market.environ := λ _, Some "secret";
     Market.offer_mapping_entries := λ _ _ _ _,
       Ok {| Market.offerMappingEntries := Market.Build_Entry <$> ["X"];
             Market.nextPageToken := None |};
     Market.put_stocks := λ _ _ _ _, Ok tt;
     Market.post_prices := λ _ _ _ _, Ok tt;
     Market.ostatki := λ _, Ok records;
     Market.utcnow := λ _, "2024-01-01T00:00:00Z" |}.

(** A world for [market.py] in which the download of the spreadsheet fails
    to connect. *)
Definition yandex_world_offline : Market.world :=
  {| Market.environ := λ _, Some "secret";
     Market.offer_mapping_entries := λ _ _ _ _,
       Ok {| Market.offerMappingEntries := []; Market.nextPageToken := None |};
     Market.put_stocks := λ _ _ _ _, Ok tt;
     Market.post_prices := λ _ _ _ _, Ok tt;
     Market.ostatki := λ _, Raise ConnectionError;
     Market.utcnow := λ _, "2024-01-01T00:00:00Z" |}.

End Sample.

(** ** What a computation sends and prints *)

Module Trace.

(** Between the states [s] and [s'] nothing was printed, and the requests
    sent, one per tick of the clock, all satisfy [P]. *)
Definition footprint {R} (P : R → Prop) (s s' : run R) : Prop :=
  stdout s' = stdout s
  ∧ ∃ l, sent s' = sent s ++ l
         ∧ clock s' = clock s + List.length l
         ∧ Forall P l.

(** Every run of [m] that ends -- with a value or an exception -- has
    printed nothing and sent only requests that satisfy [P]; a value it
    returns satisfies [Q]. *)
Definition sends {R A} (P : R → Prop) (Q : A → Prop) (m : io R A) : Prop :=
  ∀ s r s', m s = Some (r, s') →
    footprint P s s' ∧ ∀ a, r = Ok a → Q a.

(** The line the [except] clauses of either [main] print for an exception. *)
Definition handler_line (e : exn) : line :=
  match e with
  | ReadTimeout => Text "Превышено время ожидания..."
  | ConnectionError => ErrorAnd e "Ошибка соединения"
  | _ => ErrorAnd e "ERROR_2"
  end.

(** The variables [market.main] reads, in the order it reads them. *)
Definition market_variables : list string :=
  ["MARKET_TOKEN"; "FBS_ID"; "DBS_ID"; "WAREHOUSE_FBS_ID"; "WAREHOUSE_DBS_ID"].

Definition ozon_price_request (r : Seller.request) : Prop :=
  match r with
  | Seller.ImportPrices _ _ _ => True
  | _ => False
  end.

Definition yandex_price_request (r : Market.request) : Prop :=
  match r with
  | Market.PostPrices _ _ _ => True
  | _ => False
  end.

(** The first record with a given code, and its position. *)
Definition first_with (wr : list watch) (offer_id : string) : option (nat * watch) :=
  list_find (λ w, Spec.code w = offer_id) wr.

(** The Ozon signal occurs at no page of the run; [seen] items were
    accumulated before it. *)
Fixpoint ozon_no_signal (seen : nat) (pages : list Seller.Page) : Prop :=
  match pages with
  | [] => True
  | p :: ps =>
      let seen := seen + List.length (Seller.items p) in
      Seller.total p ≠ Z.of_nat seen ∧ ozon_no_signal seen ps
  end.

(** The cursor of the request that follows a run of pages. *)
Fixpoint ozon_next_cursor (cursor : string) (pages : list Seller.Page) : string :=
  match pages with
  | [] => cursor
  | p :: ps => ozon_next_cursor (Seller.last_id p) ps
  end.

Fixpoint yandex_next_cursor (cursor : string) (pages : list Market.Page) : string :=
  match pages with
  | [] => cursor
  | p :: ps => yandex_next_cursor (Spec.yandex_cursor p) ps
  end.

End Trace.

(** * Properties *)

(** ** The price normalizer *)

Lemma is_digit_decimal c : is_digit c = bool_decide (Spec.is_decimal_digit c).
Proof.
  destruct c as [[] [] [] [] [] [] [] []]; vm_compute; reflexivity.
Qed.

Lemma split_head sep s : ∃ h t, split sep s = h :: t.
Proof.
  induction s as [|c s IH]; simpl; [eauto|].
  case_bool_decide; [eauto|]. destruct IH as (h & t & ->). eauto.
Qed.

Lemma price_conversion_spec price :
  Seller.price_conversion price = Spec.normalizePrice price.
Proof.
  unfold Seller.price_conversion, Spec.normalizePrice.
  induction price as [|c s IH]; [reflexivity|].
  simpl split. simpl list_ascii_of_string. simpl Spec.before_first_dot.
  case_bool_decide as Hc.
  - subst c. reflexivity.
  - destruct (Ascii.eqb_spec c ".") as [->|_]; [done|].
    destruct (split_head "." s) as (h & t & Hs). rewrite Hs in IH |- *.
    simpl re_sub_non_digit. rewrite filter_cons, is_digit_decimal.
    case_bool_decide; case_decide; try done; simpl; by rewrite IH.
Qed.

(** C6: [price_conversion] returns the digits of the prefix before the first
    "." (of the whole input when there is no "."), on every input; the three
    sample prices convert to "5990", "199" and the empty string.  It is a
    function of its argument alone: it takes and returns no state. *)
Theorem C6_price_conversion_normalizes :
  (∀ price : string, Seller.price_conversion price = Spec.normalizePrice price)
  ∧ Seller.price_conversion "5'990.00 руб." = "5990"
  ∧ Seller.price_conversion "199.99" = "199"
  ∧ Seller.price_conversion "abc" = "".
Proof.
  split; [exact price_conversion_spec|]. repeat split; vm_compute; reflexivity.
Qed.

(** ** The batcher *)

Section divide.
Context {A : Type}.
Implicit Types (lst : list A) (n i count : nat).

Lemma slice_step lst i n : slice lst i (i + n) = take n (drop i lst).
Proof. unfold slice. f_equal. lia. Qed.

Lemma concat_slices lst n count i :
  List.concat (map (λ i, slice lst i (i + n)) (range_elems count i n))
  = take (count * n) (drop i lst).
Proof.
  revert i. induction count as [|count IH]; intros i; simpl; [done|].
  rewrite IH, slice_step, <- take_take_drop, drop_drop. done.
Qed.

Lemma slices_bounded lst n count i :
  Forall (λ c, List.length c ≤ n) (map (λ i, slice lst i (i + n)) (range_elems count i n)).
Proof.
  revert i. induction count as [|count IH]; intros i; simpl; constructor; [|done].
  rewrite slice_step, length_take. lia.
Qed.

Lemma slices_lengths lst n count i :
  map List.length (map (λ i, slice lst i (i + n)) (range_elems count i n))
  = map (λ k, (List.length lst - (i + k * n)) `min` n) (seq 0 count).
Proof.
  revert i. induction count as [|count IH]; intros i; [done|].
  cbn [range_elems map seq]. rewrite IH, slice_step, length_take, length_drop.
  f_equal; [lia|]. rewrite <- seq_shift, map_map. apply map_ext. intros k. lia.
Qed.

Lemma range_covers stop n : 0 < n → stop ≤ (stop + n - 1) / n * n.
Proof.
  intros Hn. pose proof (Nat.div_mod_eq (stop + n - 1) n) as Hd.
  pose proof (Nat.mod_upper_bound (stop + n - 1) n ltac:(lia)). nia.
Qed.

End divide.

(** C7: for a chunk size of at least 1, [divide] yields finitely many
    chunks, each no longer than the chunk size, whose concatenation in order
    is the input list; a list of 2500 elements cut by 1000 gives three
    chunks, of 1000, 1000 and 500 elements. *)
Theorem C7_divide_chunks {A} (lst : list A) (n : Z) :
  (1 ≤ n)%Z →
  ∃ chunks,
    Seller.divide lst n = Ok chunks
    ∧ Forall (λ c, (Z.of_nat (List.length c) ≤ n)%Z) chunks
    ∧ List.concat chunks = lst
    ∧ (List.length lst = 2500 → n = 1000%Z → map List.length chunks = [1000; 1000; 500]).
Proof.
  intros Hn. unfold Seller.divide, range.
  destruct (Z.eqb_spec n 0) as [?|_]; [lia|].
  destruct (Z.ltb_spec n 0) as [?|_]; [lia|].
  eexists. split; [reflexivity|]. split; [|split].
  - eapply Forall_impl; [apply slices_bounded|]. simpl. intros c Hc. lia.
  - rewrite concat_slices, drop_0. apply take_ge.
    apply range_covers. lia.
  - intros Hlen ->. rewrite slices_lengths, Hlen.
    change (Z.to_nat 1000) with 1000.
    replace ((2500 + 1000 - 1) / 1000) with 3 by (apply Nat.div_unique with 499; lia).
    cbn [seq map]. repeat f_equal; lia.
Qed.

Lemma C7_divide_chunks_witness :
  ∃ chunks,
    Seller.divide [1; 2; 3; 4; 5]%Z 2 = Ok chunks
    ∧ Forall (λ c, (Z.of_nat (List.length c) ≤ 2)%Z) chunks
    ∧ List.concat chunks = [1; 2; 3; 4; 5]%Z
    ∧ (List.length [1; 2; 3; 4; 5]%Z = 2500 → 2%Z = 1000%Z
       → map List.length chunks = [1000; 1000; 500]).
Proof. apply (C7_divide_chunks [1; 2; 3; 4; 5]%Z 2). lia. Defined.

(** ** Removing from a list in place *)

Lemma remove_is_Some x l : x ∈ l → is_Some (remove x l).
Proof.
  induction l as [|y l IH]; [by intros ?%elem_of_nil|].
  intros Hx. simpl. case_decide; [eauto|].
  apply elem_of_cons in Hx as [->|Hx]; [done|].
  destruct (IH Hx) as [l' ->]. eauto.
Qed.

Lemma remove_Some_perm x l l' : remove x l = Some l' → l ≡ₚ x :: l'.
Proof.
  revert l'. induction l as [|y l IH]; intros l'; [done|]. simpl.
  case_decide as Hy; [intros [= <-]; by subst|].
  destruct (remove x l) as [k|]; [|done]. intros [= <-].
  rewrite (IH k eq_refl). apply Permutation_swap.
Qed.

Lemma remove_Some_sublist x l l' : remove x l = Some l' → l' `sublist_of` l.
Proof.
  revert l'. induction l as [|y l IH]; intros l'; [done|]. simpl.
  case_decide; [intros [= <-]; by constructor|].
  destruct (remove x l) as [k|]; [|done]. intros [= <-].
  constructor. by apply IH.
Qed.

Lemma remove_Some_length x l l' :
  remove x l = Some l' → List.length l = S (List.length l').
Proof. intros H%remove_Some_perm. by rewrite H. Qed.

Lemma remove_Some_NoDup x l l' :
  remove x l = Some l' → NoDup l → NoDup l' ∧ x ∉ l'.
Proof.
  intros H%remove_Some_perm Hl. rewrite H in Hl.
  apply NoDup_cons in Hl. tauto.
Qed.

(** ** The reconciler: stocks (Ozon) *)

Section seller_stocks.
Context `{Interpreter}.
Implicit Types (w : watch) (wr rest : list watch) (ids : list string)
  (acc stocks : list Seller.Stock).

(** One iteration of the first loop. *)
Lemma seller_loop_cons w rest acc ids :
  Seller.create_stocks_loop (w :: rest) acc ids =
  if decide (Spec.code w ∈ ids) then
    match Spec.mapped_count w with
    | Raise e => (Raise e, ids)
    | Ok c =>
        match remove (Spec.code w) ids with
        | Some ids1 => Seller.create_stocks_loop rest (acc ++ [Spec.stock_entry w c]) ids1
        | None => (Raise ValueError, ids)
        end
    end
  else Seller.create_stocks_loop rest acc ids.
Proof.
  cbn [Seller.create_stocks_loop]. unfold Spec.mapped_count, Spec.code.
  case_bool_decide; case_decide; try done.
  do 2 (case_bool_decide; case_decide; try done).
Qed.

Lemma seller_create_stocks_unfold wr ids :
  Seller.create_stocks wr ids =
  match Seller.create_stocks_loop wr [] ids with
  | (Ok stocks, ids') => (Ok (stocks ++ (Spec.zero_entry <$> ids')), ids')
  | (Raise e, ids') => (Raise e, ids')
  end.
Proof. reflexivity. Qed.

(** The accumulator is only appended to. *)
Lemma seller_loop_acc wr acc ids :
  Seller.create_stocks_loop wr acc ids =
  let next := Seller.create_stocks_loop wr [] ids in
  (match next.1 with Ok l => Ok (acc ++ l) | Raise e => Raise e end, next.2).
Proof.
  revert acc ids. induction wr as [|w rest IH]; intros acc ids.
  { simpl. by rewrite app_nil_r. }
  rewrite !seller_loop_cons. case_decide; [|apply IH].
  destruct (Spec.mapped_count w) as [c|e]; [|done].
  destruct (remove (Spec.code w) ids) as [ids1|]; [|done].
  rewrite (IH (acc ++ _)), (IH ([] ++ _)). simpl.
  destruct (Seller.create_stocks_loop rest [] ids1).1; [|done].
  by rewrite <- app_assoc.
Qed.

(** What the first loop leaves behind: the list object holds a sub-list of
    what it held, the emitted entries and the ids left make up the ids it
    held, every emitted entry comes from a record with that code and carries
    its mapped count; an exception comes from the quantity of a record whose
    code was in the list. *)
Lemma seller_loop_inv wr acc ids r ids' :
  Seller.create_stocks_loop wr acc ids = (r, ids') →
  ids' `sublist_of` ids ∧
  match r with
  | Ok stocks =>
      ∃ new, stocks = acc ++ new
        ∧ (Seller.stock_offer_id <$> new) ++ ids' ≡ₚ ids
        ∧ ∀ e, e ∈ new →
            ∃ w, w ∈ wr ∧ Spec.code w = Seller.stock_offer_id e
                 ∧ Spec.mapped_count w = Ok (Seller.stock e)
  | Raise e =>
      ∃ w, w ∈ wr ∧ Spec.code w ∈ ids ∧ Spec.mapped_count w = Raise e
  end.
Proof.
  revert acc ids. induction wr as [|w rest IH]; intros acc ids.
  { simpl. intros [= <- <-]. split; [done|]. exists []. rewrite app_nil_r.
    split_and!; [done..|]. by intros e ?%elem_of_nil. }
  rewrite seller_loop_cons. case_decide as Hin.
  - destruct (Spec.mapped_count w) as [c|e] eqn:Hc.
    + destruct (remove_is_Some _ _ Hin) as [ids1 Hrm]. rewrite Hrm.
      intros [Hsub Hr]%IH. split.
      { etrans; [done|]. by eapply remove_Some_sublist. }
      destruct r as [stocks|e].
      * destruct Hr as (new & -> & Hperm & Hnew).
        exists (Spec.stock_entry w c :: new). split_and!.
        -- by rewrite <- app_assoc.
        -- rewrite (remove_Some_perm _ _ _ Hrm). simpl. by rewrite Hperm.
        -- intros e [->|He]%elem_of_cons.
           ++ exists w. split_and!; [left|done..].
           ++ destruct (Hnew e He) as (w' & ? & ? & ?).
              exists w'. split_and!; [by right|done..].
      * destruct Hr as (w' & ? & Hw' & ?). exists w'. split_and!; [by right| |done].
        eapply elem_of_sublist; [done|]. by eapply remove_Some_sublist.
    + intros [= <- <-]. split; [done|]. exists w. split_and!; [left|done..].
  - intros [Hsub Hr]%IH. split; [done|]. destruct r as [stocks|e].
    + destruct Hr as (new & -> & Hperm & Hnew). exists new. split_and!; [done..|].
      intros e He. destruct (Hnew e He) as (w' & ? & ? & ?).
      exists w'. split_and!; [by right|done..].
    + destruct Hr as (w' & ? & ? & ?). exists w'. split_and!; [by right|done..].
Qed.

(** With a duplicate-free list, no code of a record is left in it. *)
Lemma seller_loop_NoDup wr acc ids stocks ids' :
  NoDup ids →
  Seller.create_stocks_loop wr acc ids = (Ok stocks, ids') →
  NoDup ids' ∧ ∀ w, w ∈ wr → Spec.code w ∉ ids'.
Proof.
  revert acc ids. induction wr as [|w rest IH]; intros acc ids Hnd.
  { simpl. intros [= _ <-]. split; [done|]. by intros w ?%elem_of_nil. }
  rewrite seller_loop_cons. case_decide as Hin.
  - destruct (Spec.mapped_count w) as [c|e]; [|done].
    destruct (remove_is_Some _ _ Hin) as [ids1 Hrm]. rewrite Hrm. intros Hloop.
    destruct (remove_Some_NoDup _ _ _ Hrm Hnd) as [Hnd1 Hw].
    destruct (IH _ _ Hnd1 Hloop) as [? Hrest]. split; [done|].
    intros w' [->|?]%elem_of_cons; [|by apply Hrest].
    intros Hw'. apply Hw. eapply elem_of_sublist; [done|].
    by apply (seller_loop_inv _ _ _ _ _ Hloop).
  - intros Hloop. destruct (IH _ _ Hnd Hloop) as [? Hrest]. split; [done|].
    intros w' [->|?]%elem_of_cons; [|by apply Hrest].
    intros Hw'. apply Hin. eapply elem_of_sublist; [done|].
    by apply (seller_loop_inv _ _ _ _ _ Hloop).
Qed.

(** The list object comes back as it was exactly when no record matched. *)
Lemma seller_loop_unchanged wr acc ids stocks ids' :
  Seller.create_stocks_loop wr acc ids = (Ok stocks, ids') →
  ids' = ids ↔ ∀ w, w ∈ wr → Spec.code w ∉ ids.
Proof.
  revert acc ids. induction wr as [|w rest IH]; intros acc ids.
  { simpl. intros [= _ <-]. split; [|done]. by intros _ w ?%elem_of_nil. }
  rewrite seller_loop_cons. case_decide as Hin.
  - destruct (Spec.mapped_count w) as [c|e]; [|done].
    destruct (remove_is_Some _ _ Hin) as [ids1 Hrm]. rewrite Hrm. intros Hloop.
    split.
    + intros ->. apply seller_loop_inv in Hloop as [Hsub%sublist_length _].
      apply remove_Some_length in Hrm. lia.
    + intros Hno. destruct (Hno w); [left|done].
  - intros Hloop. rewrite (IH _ _ Hloop). split.
    + intros Hno w' [->|?]%elem_of_cons; [done|by apply Hno].
    + intros Hno w' ?. apply Hno. by right.
Qed.

End seller_stocks.

(** ** The reconciler: stocks (Yandex Market)

    The Yandex variant runs the same loops on the same list object and only
    shapes its entries differently. *)

Section market_stocks.
Context `{Interpreter}.
Implicit Types (wr : list watch) (ids : list string) (acc : list Seller.Stock).

Lemma market_loop_sim wr acc ids warehouse_id date :
  Market.create_stocks_loop wr (map (Spec.to_sku warehouse_id date) acc) ids warehouse_id date =
  let r := Seller.create_stocks_loop wr acc ids in
  (Spec.to_skus warehouse_id date r.1, r.2).
Proof.
  revert acc ids. induction wr as [|w rest IH]; intros acc ids; [done|].
  rewrite seller_loop_cons. cbn [Market.create_stocks_loop].
  unfold Spec.mapped_count. fold (Spec.code w).
  destruct (decide (Spec.code w ∈ ids)) as [Hin|Hin];
    [rewrite bool_decide_eq_true_2 by done
    |rewrite bool_decide_eq_false_2 by done; apply IH].
  assert (∀ c : Z,
    match remove (Spec.code w) ids with
    | Some ids1 =>
        Market.create_stocks_loop rest
          (map (Spec.to_sku warehouse_id date) acc
             ++ [Spec.to_sku warehouse_id date (Spec.stock_entry w c)])
          ids1 warehouse_id date
    | None => (Raise ValueError, ids)
    end =
    let r := match remove (Spec.code w) ids with
             | Some ids1 =>
                 Seller.create_stocks_loop rest (acc ++ [Spec.stock_entry w c]) ids1
             | None => (Raise ValueError, ids)
             end in
    (Spec.to_skus warehouse_id date r.1, r.2)) as Hstep.
  { intros c. destruct (remove (Spec.code w) ids) as [ids1|]; [|done].
    by rewrite <- IH, map_app. }
  destruct (decide (str (get w Количество) = ">10")) as [Hq|Hq];
    [rewrite bool_decide_eq_true_2 by done; apply Hstep
    |rewrite bool_decide_eq_false_2 by done].
  destruct (decide (str (get w Количество) = "1")) as [Hq1|Hq1];
    [rewrite bool_decide_eq_true_2 by done; apply Hstep
    |rewrite bool_decide_eq_false_2 by done].
  destruct (int (get w Количество)) as [c|e]; [apply Hstep|done].
Qed.

Lemma market_create_stocks_sim wr ids warehouse_id date :
  Market.create_stocks wr ids warehouse_id date =
  let r := Seller.create_stocks wr ids in
  (Spec.to_skus warehouse_id date r.1, r.2).
Proof.
  unfold Market.create_stocks, Seller.create_stocks.
  pose proof (market_loop_sim wr [] ids warehouse_id date) as Hsim.
  simpl in Hsim. rewrite Hsim.
  destruct (Seller.create_stocks_loop wr [] ids) as [[stocks|e] ids']; [|done].
  simpl. rewrite map_app. do 3 f_equal.
  clear. induction ids' as [|x l IH]; [done|]. simpl. f_equal. apply IH.
Qed.

End market_stocks.




(** ** Reading an integer from text *)

Lemma is_digit_true c : is_digit c = true ↔ Spec.is_decimal_digit c.
Proof. rewrite is_digit_decimal. apply bool_decide_eq_true. Qed.

Lemma is_digit_false c : is_digit c = false ↔ ¬ Spec.is_decimal_digit c.
Proof. rewrite is_digit_decimal. apply bool_decide_eq_false. Qed.

Lemma digit_val_spec c :
  Spec.is_decimal_digit c → digit_val c = (Z.of_nat (nat_of_ascii c) - 48)%Z.
Proof.
  unfold Spec.is_decimal_digit.
  destruct c as [[] [] [] [] [] [] [] []]; intros Hc; cbv in Hc |- *;
    first [reflexivity | lia].
Qed.

Lemma digit_not_space c : Spec.is_decimal_digit c → is_space c = false.
Proof.
  unfold Spec.is_decimal_digit, is_space. intros Hc.
  apply orb_false_iff. split.
  - apply andb_false_iff. right. apply Nat.leb_gt. lia.
  - apply Nat.eqb_neq. lia.
Qed.

Lemma digit_is_ascii c : Spec.is_decimal_digit c → is_ascii c = true.
Proof. unfold Spec.is_decimal_digit, is_ascii. intros Hc. apply Nat.ltb_lt. lia. Qed.

(** A first character that is no sign leaves the numeral unsigned. *)
Lemma no_sign {X} (c : ascii) (u : string) (plus minus : string → X) (other : X) :
  c ≠ "+"%char → c ≠ "-"%char →
  match String c u with
  | String "+" v => plus v
  | String "-" v => minus v
  | _ => other
  end = other.
Proof. destruct c as [[] [] [] [] [] [] [] []]; done. Qed.

Lemma digit_no_sign c :
  Spec.is_decimal_digit c → c ≠ "+"%char ∧ c ≠ "-"%char.
Proof. unfold Spec.is_decimal_digit. split; intros ->; cbv in *; lia. Qed.

Section digits.
Implicit Types (s : string) (acc : Z).

Lemma int_digits_decimal s acc :
  Spec.all_decimal_digits s →
  int_digits acc false s
  = Some (acc * 10 ^ Z.of_nat (String.length s) + Spec.decimal_value s)%Z.
Proof.
  revert acc. induction s as [|c s IH]; intros acc.
  { intros _. simpl. f_equal. lia. }
  intros [Hc Hs]. cbn [int_digits Spec.decimal_value].
  rewrite (proj2 (is_digit_true c) Hc), (IH _ Hs).
  rewrite (digit_val_spec c Hc). f_equal.
  change (String.length (String c s)) with (S (String.length s)).
  rewrite Nat2Z.inj_succ, Z.pow_succ_r by lia. lia.
Qed.

Lemma int_unsigned_decimal s :
  Spec.all_decimal_digits s → s ≠ "" → int_unsigned s = Some (Spec.decimal_value s).
Proof.
  destruct s as [|c s]; [done|]. intros [Hc Hs] _. simpl.
  rewrite (proj2 (is_digit_true c) Hc), (int_digits_decimal s _ Hs).
  rewrite (digit_val_spec c Hc). done.
Qed.

Lemma lstrip_decimal s : Spec.all_decimal_digits s → lstrip s = s.
Proof. destruct s as [|c s]; [done|]. intros [Hc _]. simpl. by rewrite digit_not_space. Qed.

Lemma rstrip_decimal s : Spec.all_decimal_digits s → rstrip s = s.
Proof.
  induction s as [|c s IH]; [done|]. intros [Hc Hs]. simpl. rewrite (IH Hs).
  destruct s; [by rewrite digit_not_space|done].
Qed.

Lemma count_digits_decimal s : Spec.all_decimal_digits s → count_digits s = String.length s.
Proof.
  induction s as [|c s IH]; [done|]. intros [Hc Hs]. simpl.
  by rewrite (proj2 (is_digit_true c) Hc), (IH Hs).
Qed.

Lemma all_ascii_decimal s : Spec.all_decimal_digits s → all_ascii s = true.
Proof.
  induction s as [|c s IH]; [done|]. intros [Hc Hs]. simpl.
  by rewrite digit_is_ascii, IH.
Qed.

Lemma int_unsigned_no_digit s : Spec.no_decimal_digit s → int_unsigned s = None.
Proof.
  destruct s as [|c s]; [done|]. intros [Hc _]. simpl.
  by rewrite (proj2 (is_digit_false c) Hc).
Qed.

Lemma lstrip_no_digit s : Spec.no_decimal_digit s → Spec.no_decimal_digit (lstrip s).
Proof.
  induction s as [|c s IH]; [done|]. intros [Hc Hs]. simpl.
  destruct (is_space c); [by apply IH|done].
Qed.

Lemma rstrip_no_digit s : Spec.no_decimal_digit s → Spec.no_decimal_digit (rstrip s).
Proof.
  induction s as [|c s IH]; [done|]. intros [Hc Hs]. simpl.
  specialize (IH Hs). destruct (rstrip s); [by destruct (is_space c)|done].
Qed.

End digits.

Section int_of_str.
Context `{Interpreter}.

(** A string of decimal digits within the interpreter's limit reads as the
    number it denotes. *)
Lemma int_of_str_decimal s :
  Spec.all_decimal_digits s → s ≠ "" →
  int_max_str_digits = 0 ∨ String.length s ≤ int_max_str_digits →
  int_of_str s = Some (Spec.decimal_value s).
Proof.
  intros Hs Hne Hlim. unfold int_of_str, int_of_ascii.
  rewrite all_ascii_decimal, lstrip_decimal, rstrip_decimal by done.
  rewrite count_digits_decimal by done.
  rewrite bool_decide_eq_false_2 by lia.
  destruct s as [|c s]; [done|]. destruct Hs as [Hc Hs].
  destruct (digit_no_sign c Hc).
  etrans; [|by apply (int_unsigned_decimal (String c s))].
  by apply (no_sign c s int_unsigned (λ u, Z.opp <$> int_unsigned u)).
Qed.

(** ASCII text without any digit does not read as an integer. *)
Lemma int_of_str_no_digit s :
  all_ascii s = true → Spec.no_decimal_digit s → int_of_str s = None.
Proof.
  intros Ha Hs. unfold int_of_str, int_of_ascii. rewrite Ha.
  case_bool_decide; [done|].
  pose proof (rstrip_no_digit _ (lstrip_no_digit _ Hs)) as Ht.
  destruct (rstrip (lstrip s)) as [|c u]; [done|].
  destruct (decide (c = "+"%char)) as [->|?].
  { destruct Ht as [_ Hu]. by apply int_unsigned_no_digit. }
  destruct (decide (c = "-"%char)) as [->|?].
  { destruct Ht as [_ Hu]. by rewrite int_unsigned_no_digit. }
  etrans; [|by apply (int_unsigned_no_digit (String c u))].
  by apply (no_sign c u int_unsigned (λ u, Z.opp <$> int_unsigned u)).
Qed.

End int_of_str.

(** ** The quantity mapping *)

Section quantity.
Context `{Interpreter}.
Implicit Types (w : watch) (rest : list watch) (ids : list string).

(** A matched record whose quantity maps to [c] puts its entry first; what
    follows is the call on the other records, with one occurrence of the
    code gone from the list. *)
Lemma seller_create_stocks_matched w rest ids ids1 c :
  Spec.code w ∈ ids → remove (Spec.code w) ids = Some ids1 →
  Spec.mapped_count w = Ok c →
  Seller.create_stocks (w :: rest) ids
  = Spec.emit_then (Spec.stock_entry w c) (Seller.create_stocks rest ids1).
Proof.
  intros Hin Hrm Hc. rewrite !seller_create_stocks_unfold, seller_loop_cons.
  rewrite decide_True, Hc, Hrm by done. rewrite seller_loop_acc. simpl.
  by destruct (Seller.create_stocks_loop rest [] ids1) as [[l|e] ids'].
Qed.

Lemma seller_create_stocks_raises w rest ids e :
  Spec.code w ∈ ids → Spec.mapped_count w = Raise e →
  Seller.create_stocks (w :: rest) ids = (Raise e, ids).
Proof.
  intros Hin Hc. rewrite seller_create_stocks_unfold, seller_loop_cons.
  by rewrite decide_True, Hc by done.
Qed.

Lemma market_create_stocks_matched w rest ids ids1 c warehouse_id date :
  Spec.code w ∈ ids → remove (Spec.code w) ids = Some ids1 →
  Spec.mapped_count w = Ok c →
  Market.create_stocks (w :: rest) ids warehouse_id date
  = Spec.emit_then (Spec.to_sku warehouse_id date (Spec.stock_entry w c))
      (Market.create_stocks rest ids1 warehouse_id date).
Proof.
  intros Hin Hrm Hc. rewrite !market_create_stocks_sim.
  rewrite (seller_create_stocks_matched w rest ids ids1 c) by done.
  unfold Spec.emit_then. simpl.
  by destruct (Seller.create_stocks rest ids1) as [[l|e] ids'].
Qed.

Lemma market_create_stocks_raises w rest ids e warehouse_id date :
  Spec.code w ∈ ids → Spec.mapped_count w = Raise e →
  Market.create_stocks (w :: rest) ids warehouse_id date = (Raise e, ids).
Proof.
  intros Hin Hc. rewrite market_create_stocks_sim.
  by rewrite (seller_create_stocks_raises w rest ids e).
Qed.

Lemma mapped_count_text w quantity :
  get w Количество = PStr quantity →
  Spec.mapped_count w =
  if decide (quantity = ">10") then Ok 100%Z
  else if decide (quantity = "1") then Ok 0%Z
  else match int_of_str quantity with
       | Some z => Ok z
       | None => Raise ValueError
       end.
Proof. unfold Spec.mapped_count. by intros ->. Qed.

End quantity.

(** C5: for a matched record with quantity text [quantity], both variants
    of [create_stocks] emit its entry with count 100 for ">10", 0 for "1",
    and otherwise the integer the text reads as (7 for "7"; the number a
    string of decimal digits denotes); text that does not read as an
    integer (such as ASCII text without a digit) makes both fail with an
    error. *)
Theorem C5_quantity_mapping `{Interpreter}
    (w : watch) (rest : list watch) (ids : list string)
    (warehouse_id date quantity : string) :
  Spec.code w ∈ ids →
  get w Количество = PStr quantity →
  ∃ ids1, remove (Spec.code w) ids = Some ids1 ∧
    let emits (c : Z) :=
      Seller.create_stocks (w :: rest) ids
      = Spec.emit_then (Spec.stock_entry w c) (Seller.create_stocks rest ids1)
      ∧ Market.create_stocks (w :: rest) ids warehouse_id date
        = Spec.emit_then (Spec.to_sku warehouse_id date (Spec.stock_entry w c))
            (Market.create_stocks rest ids1 warehouse_id date) in
    let fails :=
      Seller.create_stocks (w :: rest) ids = (Raise ValueError, ids)
      ∧ Market.create_stocks (w :: rest) ids warehouse_id date
        = (Raise ValueError, ids) in
    (quantity = ">10" → emits 100%Z)
    ∧ (quantity = "1" → emits 0%Z)
    ∧ (quantity = "7" → emits 7%Z)
    ∧ (∀ z, quantity ≠ ">10" → quantity ≠ "1" →
         int_of_str quantity = Some z → emits z)
    ∧ (Spec.all_decimal_digits quantity → quantity ≠ "" → quantity ≠ "1" →
       int_max_str_digits = 0 ∨ String.length quantity ≤ int_max_str_digits →
       emits (Spec.decimal_value quantity))
    ∧ (quantity ≠ ">10" → quantity ≠ "1" → int_of_str quantity = None → fails)
    ∧ (all_ascii quantity = true → Spec.no_decimal_digit quantity → fails).
Proof.
  intros Hin Hq. destruct (remove_is_Some _ _ Hin) as [ids1 Hrm].
  exists ids1. split; [done|]. intros emits fails.
  pose proof (mapped_count_text w quantity Hq) as Hmap.
  assert (∀ c, Spec.mapped_count w = Ok c → emits c) as Hemit.
  { intros c Hc. split.
    - by apply seller_create_stocks_matched.
    - by apply market_create_stocks_matched. }
  assert (Spec.mapped_count w = Raise ValueError → fails) as Hfail.
  { intros Hc. split.
    - by apply seller_create_stocks_raises.
    - by apply market_create_stocks_raises. }
  assert (∀ z, quantity ≠ ">10" → quantity ≠ "1" →
            int_of_str quantity = Some z → emits z) as Hint.
  { intros z H1 H2 Hz. apply Hemit. rewrite Hmap.
    by rewrite !decide_False, Hz by done. }
  assert (quantity ≠ ">10" → quantity ≠ "1" →
          int_of_str quantity = None → fails) as Hnone.
  { intros H1 H2 Hz. apply Hfail. rewrite Hmap.
    by rewrite !decide_False, Hz by done. }
  split_and!.
  - intros ->. by apply Hemit.
  - intros ->. by apply Hemit.
  - intros ->. apply Hint; [done..|].
    rewrite (int_of_str_decimal "7"); [done|by repeat split; cbv; lia|done|].
    destruct int_max_str_digits; [by left|right; simpl; lia].
  - done.
  - intros Hd Hne H1 Hlim. apply Hint; [|done|by apply int_of_str_decimal].
    intros ->. destruct Hd as [Hd _]. cbv in Hd. lia.
  - done.
  - intros Ha Hd. apply Hnone; [| |by apply int_of_str_no_digit].
    + intros ->. destruct Hd as [_ [Hd _]]. apply Hd. cbv. lia.
    + intros ->. destruct Hd as [Hd _]. apply Hd. cbv. lia.
Qed.

Lemma C5_quantity_mapping_witness :
  ∃ ids1, remove "A" ["A"; "B"] = Some ids1 ∧
    Seller.create_stocks (H := Sample.interpreter)
      [Sample.record "A" "7" "5'990.00 руб."] ["A"; "B"]
    = Spec.emit_then (Spec.stock_entry (Sample.record "A" "7" "5'990.00 руб.") 7)
        (Seller.create_stocks (H := Sample.interpreter) [] ids1).
Proof.
  destruct (C5_quantity_mapping (H := Sample.interpreter)
              (Sample.record "A" "7" "5'990.00 руб.") [] ["A"; "B"] "w" "t" "7")
    as (ids1 & Hrm & _ & _ & H7 & _).
  - vm_compute. left.
  - vm_compute. reflexivity.
  - exists ids1. split; [exact Hrm|]. exact (proj1 (H7 eq_refl)).
Defined.

(** ** The reconciler: prices *)

Section prices.
Implicit Types (w : watch) (wr rest : list watch) (ids : list string).

(** [create_prices] (Ozon) goes through the records whose code is in the
    list, in order, and emits one entry for each; it raises only at a
    matched record whose price is not text. *)
Lemma seller_prices_loop_inv wr acc ids :
  match Seller.create_prices_loop wr acc ids with
  | Ok prices =>
      ∃ new, prices = acc ++ new
        ∧ Forall2 Spec.priced (filter (λ w, Spec.code w ∈ ids) wr) new
  | Raise e =>
      e = AttributeError
      ∧ ∃ w, w ∈ wr ∧ Spec.code w ∈ ids ∧ ∀ s, get w Цена ≠ PStr s
  end.
Proof.
  revert acc. induction wr as [|w rest IH]; intros acc.
  { simpl. exists []. by rewrite app_nil_r. }
  cbn [Seller.create_prices_loop]. fold (Spec.code w). rewrite filter_cons.
  destruct (decide (Spec.code w ∈ ids)) as [Hin|Hin];
    [rewrite bool_decide_eq_true_2 by done
    |rewrite bool_decide_eq_false_2 by done].
  - destruct (get w Цена) as [|s|z] eqn:Hp; simpl.
    + split; [done|]. exists w. split_and!; [left|done|by rewrite Hp].
    + specialize (IH (acc ++ [Spec.ozon_price w s])).
      destruct (Seller.create_prices_loop rest _ ids) as [prices|e].
      * destruct IH as (new & -> & Hnew). exists (Spec.ozon_price w s :: new).
        split; [by rewrite <- app_assoc|]. constructor; [by exists s|done].
      * destruct IH as (-> & w' & ? & ? & ?). split; [done|].
        exists w'. split_and!; [by right|done..].
    + split; [done|]. exists w. split_and!; [left|done|by rewrite Hp].
  - specialize (IH acc). destruct (Seller.create_prices_loop rest acc ids) as [prices|e].
    + done.
    + destruct IH as (-> & w' & ? & ? & ?). split; [done|].
      exists w'. split_and!; [by right|done..].
Qed.

End prices.

Lemma NoDup_fmap_elem {A B} (f : A → B) (l : list A) (x y : A) :
  NoDup (f <$> l) → x ∈ l → y ∈ l → f x = f y → x = y.
Proof.
  induction l as [|a l IH]; [by intros _ ?%elem_of_nil|].
  rewrite fmap_cons, NoDup_cons.
  intros [Ha Hl] [->|Hx]%elem_of_cons [->|Hy]%elem_of_cons Hf; [done| | |by apply IH].
  - destruct Ha. rewrite Hf. by apply list_elem_of_fmap_2.
  - destruct Ha. rewrite <- Hf. by apply list_elem_of_fmap_2.
Qed.

Lemma zero_entry_offer_ids (ids : list string) :
  Seller.stock_offer_id <$> (Spec.zero_entry <$> ids) = ids.
Proof. induction ids as [|x ids IH]; [done|]. simpl. f_equal. apply IH. Qed.

(** C3 (as the code has it): for records with pairwise-distinct codes, when
    [create_stocks] returns, the offer ids of the stock list are the catalog
    rearranged, so the two have the same length; if no offer id is repeated
    in the catalog, each appears exactly once in the stock list, with the
    mapped count of the record that has this code, or with 0 when no record
    has it.  [create_stocks] raises only at a record of the catalog whose
    quantity does not map.  The price list of [create_prices] has one entry
    per record whose code is in the catalog, in order, and none else. *)
Theorem C3_one_entry_per_offer `{Interpreter}
    (wr : list watch) (ids : list string)
    (r : res (list Seller.Stock)) (ids' : list string)
    (rp : res (list Seller.Price)) :
  NoDup (Spec.code <$> wr) →
  Seller.create_stocks wr ids = (r, ids') →
  Seller.create_prices wr ids = rp →
  (∀ stocks, r = Ok stocks →
     Seller.stock_offer_id <$> stocks ≡ₚ ids
     ∧ List.length stocks = List.length ids
     ∧ (NoDup ids →
        NoDup (Seller.stock_offer_id <$> stocks)
        ∧ ∀ e, e ∈ stocks →
            (∀ w, w ∈ wr → Spec.code w = Seller.stock_offer_id e →
                  Spec.mapped_count w = Ok (Seller.stock e))
            ∧ ((∀ w, w ∈ wr → Spec.code w ≠ Seller.stock_offer_id e) →
               Seller.stock e = 0%Z)))
  ∧ (∀ e, r = Raise e →
       ∃ w, w ∈ wr ∧ Spec.code w ∈ ids ∧ Spec.mapped_count w = Raise e)
  ∧ (∀ prices, rp = Ok prices →
       Forall2 Spec.priced (filter (λ w, Spec.code w ∈ ids) wr) prices
       ∧ List.length prices = List.length (filter (λ w, Spec.code w ∈ ids) wr))
  ∧ (∀ e, rp = Raise e →
       ∃ w, w ∈ wr ∧ Spec.code w ∈ ids ∧ ∀ s, get w Цена ≠ PStr s).
Proof.
  intros Hcodes Hcall Hprices. rewrite seller_create_stocks_unfold in Hcall.
  destruct (Seller.create_stocks_loop wr [] ids) as [[matched|e0] ids1] eqn:Hloop;
    injection Hcall as <- <-.
  - destruct (seller_loop_inv _ _ _ _ _ Hloop) as (Hsub & new & -> & Hperm & Hnew).
    simpl in *. split_and!.
    + intros stocks [= <-].
      assert (Seller.stock_offer_id <$> new ++ (Spec.zero_entry <$> ids1) ≡ₚ ids) as Hids.
      { rewrite fmap_app, zero_entry_offer_ids. done. }
      split_and!; [done|by rewrite <- Hids, length_fmap|].
      intros Hnd. split; [by rewrite Hids|].
      destruct (seller_loop_NoDup _ _ _ _ _ Hnd Hloop) as [_ Hleft].
      intros e [He|He]%elem_of_app.
      * destruct (Hnew e He) as (w' & Hw' & Hcode & Hcount). split.
        -- intros w Hw Hwe.
           by rewrite (NoDup_fmap_elem Spec.code wr w w') by congruence.
        -- intros Hno. by destruct (Hno w' Hw').
      * apply list_elem_of_fmap in He as (x & -> & Hx). simpl. split; [|done].
        intros w Hw Hwe. destruct (Hleft w Hw). by rewrite Hwe.
    + done.
    + intros prices ->. pose proof (seller_prices_loop_inv wr [] ids) as Hp.
      unfold Seller.create_prices in Hprices. rewrite Hprices in Hp.
      destruct Hp as (new' & -> & Hp). simpl. split; [done|].
      by rewrite (Forall2_length _ _ _ Hp).
    + intros e ->. pose proof (seller_prices_loop_inv wr [] ids) as Hp.
      unfold Seller.create_prices in Hprices. rewrite Hprices in Hp. apply Hp.
  - pose proof (seller_loop_inv _ _ _ _ _ Hloop) as [_ Hbad]. split_and!.
    + done.
    + by intros e [= <-].
    + intros prices ->. pose proof (seller_prices_loop_inv wr [] ids) as Hp.
      unfold Seller.create_prices in Hprices. rewrite Hprices in Hp.
      destruct Hp as (new' & -> & Hp). simpl. split; [done|].
      by rewrite (Forall2_length _ _ _ Hp).
    + intros e ->. pose proof (seller_prices_loop_inv wr [] ids) as Hp.
      unfold Seller.create_prices in Hprices. rewrite Hprices in Hp. apply Hp.
Qed.

Lemma C3_one_entry_per_offer_witness :
  Seller.stock_offer_id <$>
    [ {| Seller.stock_offer_id := "A"; Seller.stock := 5 |};
      {| Seller.stock_offer_id := "B"; Seller.stock := 0 |};
      {| Seller.stock_offer_id := "C"; Seller.stock := 0 |} ] ≡ₚ ["A"; "B"; "C"]
  ∧ List.length
      [ {| Seller.stock_offer_id := "A"; Seller.stock := 5 |};
        {| Seller.stock_offer_id := "B"; Seller.stock := 0 |};
        {| Seller.stock_offer_id := "C"; Seller.stock := 0 |} ]
    = List.length ["A"; "B"; "C"].
Proof.
  destruct (C3_one_entry_per_offer (H := Sample.interpreter)
              [Sample.record "A" "5" "5'990.00 руб."] ["A"; "B"; "C"]
              (Ok [ {| Seller.stock_offer_id := "A"; Seller.stock := 5 |};
                    {| Seller.stock_offer_id := "B"; Seller.stock := 0 |};
                    {| Seller.stock_offer_id := "C"; Seller.stock := 0 |} ])
              ["B"; "C"]
              (Seller.create_prices [Sample.record "A" "5" "5'990.00 руб."]
                 ["A"; "B"; "C"])) as (Hstocks & _).
  - vm_compute. apply NoDup_singleton.
  - vm_compute. reflexivity.
  - reflexivity.
  - destruct (Hstocks _ eq_refl) as (Hperm & Hlen & _). exact (conj Hperm Hlen).
Defined.

(** C3 as stated fails on a catalog that repeats an offer id: with one
    record for "A" and the catalog ["A", "A"], the offer "A" has two entries
    in the stock list, the second with count 0 although a record has this
    code. *)
Lemma C3_repeated_offer_id :
  NoDup (Spec.code <$> [Sample.record "A" "5" "5'990.00 руб."])
  ∧ (Seller.create_stocks (H := Sample.interpreter)
       [Sample.record "A" "5" "5'990.00 руб."] ["A"; "A"]).1
    = Ok [ {| Seller.stock_offer_id := "A"; Seller.stock := 5 |};
           {| Seller.stock_offer_id := "A"; Seller.stock := 0 |} ]
  ∧ List.length
      (filter (λ e, Seller.stock_offer_id e = "A")
         [ {| Seller.stock_offer_id := "A"; Seller.stock := 5 |};
           {| Seller.stock_offer_id := "A"; Seller.stock := 0 |} ]) = 2.
Proof.
  split_and!.
  - vm_compute. apply NoDup_singleton.
  - vm_compute. reflexivity.
  - vm_compute. reflexivity.
Qed.

(** ** An empty normalised price *)

Section empty_price.
Context `{Interpreter}.
Implicit Types (w : watch) (wr rest : list watch) (ids : list string).

Lemma re_sub_no_digit s : Spec.no_decimal_digit s → re_sub_non_digit s = "".
Proof.
  induction s as [|c s IH]; [done|]. intros [Hc Hs]. simpl.
  by rewrite (proj2 (is_digit_false c) Hc), IH.
Qed.

Lemma int_of_str_empty : int_of_str "" = None.
Proof.
  unfold int_of_str, int_of_ascii. cbn [all_ascii lstrip rstrip count_digits].
  by rewrite bool_decide_eq_false_2 by lia.
Qed.

Lemma price_value_empty s :
  Seller.price_conversion s = "" → Market.price_value (PStr s) = Raise ValueError.
Proof.
  intros Hempty. unfold Market.price_value. simpl.
  by rewrite Hempty, int_of_str_empty.
Qed.

(** The price value of text is an integer or a [ValueError]. *)
Lemma price_value_text s :
  (∃ v, Market.price_value (PStr s) = Ok v)
  ∨ Market.price_value (PStr s) = Raise ValueError.
Proof.
  unfold Market.price_value. simpl.
  destruct (int_of_str (Seller.price_conversion s)); eauto.
Qed.

(** [create_prices] (Yandex) stops with an exception once a matched
    record's price has no digit to read. *)
Lemma market_prices_loop_raises wr acc ids w s :
  w ∈ wr → Spec.code w ∈ ids → get w Цена = PStr s →
  Seller.price_conversion s = "" →
  ∃ e, Market.create_prices_loop wr acc ids = Raise e.
Proof.
  intros Hw Hin Hp Hempty. revert acc.
  induction wr as [|w0 rest IH]; intros acc; [by apply elem_of_nil in Hw|].
  cbn [Market.create_prices_loop]. fold (Spec.code w0).
  destruct (decide (Spec.code w0 ∈ ids)) as [Hin0|Hin0];
    [rewrite bool_decide_eq_true_2 by done
    |rewrite bool_decide_eq_false_2 by done].
  - destruct (Market.price_value (get w0 Цена)) as [v|e] eqn:Hv; simpl; [|by exists e].
    apply elem_of_cons in Hw as [->|Hw]; [|by apply IH].
    by rewrite Hp, (price_value_empty s Hempty) in Hv.
  - apply elem_of_cons in Hw as [->|Hw]; [done|by apply IH].
Qed.

(** When the prices of matched records are text, that exception is a
    [ValueError]. *)
Lemma market_prices_loop_error wr acc ids e :
  (∀ w', w' ∈ wr → Spec.code w' ∈ ids → ∃ s', get w' Цена = PStr s') →
  Market.create_prices_loop wr acc ids = Raise e → e = ValueError.
Proof.
  revert acc. induction wr as [|w0 rest IH]; intros acc Htext; [done|].
  cbn [Market.create_prices_loop]. fold (Spec.code w0).
  assert (∀ w', w' ∈ rest → Spec.code w' ∈ ids → ∃ s', get w' Цена = PStr s') as Hrest.
  { intros w' ? ?. apply Htext; [by right|done]. }
  destruct (decide (Spec.code w0 ∈ ids)) as [Hin0|Hin0];
    [rewrite bool_decide_eq_true_2 by done
    |rewrite bool_decide_eq_false_2 by done; by apply IH].
  destruct (Htext w0) as [s0 Hs0]; [left|done|]. rewrite Hs0.
  destruct (price_value_text s0) as [[v Hv]|Hv]; rewrite Hv; simpl.
  - by apply IH.
  - by intros [= <-].
Qed.

End empty_price.

(** C10 (as the code has it): when a matched record's price text has no
    digit before its first ".", the Yandex [create_prices] fails with an
    error.  When the price of every matched record is text, that error is
    the [ValueError] of reading the empty normalised price as an integer,
    and the Ozon [create_prices] returns and has that record's entry with
    the empty string as its price.  When the price cell of some matched
    record holds no text, the Ozon [create_prices] does not return: it
    raises [AttributeError]. *)
Theorem C10_empty_price `{Interpreter}
    (wr : list watch) (ids : list string) (w : watch) (s : string) :
  w ∈ wr → Spec.code w ∈ ids → get w Цена = PStr s →
  Forall (λ c, ¬ Spec.is_decimal_digit c)
         (Spec.before_first_dot (list_ascii_of_string s)) →
  (∃ e, Market.create_prices wr ids = Raise e)
  ∧ ((∀ w', w' ∈ wr → Spec.code w' ∈ ids → ∃ s', get w' Цена = PStr s') →
     Market.create_prices wr ids = Raise ValueError
     ∧ ∃ prices,
         Seller.create_prices wr ids = Ok prices
         ∧ {| Seller.auto_action_enabled := "UNKNOWN";
              Seller.currency_code := "RUB";
              Seller.price_offer_id := Spec.code w;
              Seller.old_price := "0";
              Seller.price := "" |} ∈ prices)
  ∧ (∀ w', w' ∈ wr → Spec.code w' ∈ ids → (∀ s', get w' Цена ≠ PStr s') →
     Seller.create_prices wr ids = Raise AttributeError).
Proof.
  intros Hw Hin Hp Hnone.
  assert (Seller.price_conversion s = "") as Hempty.
  { rewrite price_conversion_spec. unfold Spec.normalizePrice.
    induction Hnone as [|c l Hc _ IH]; [done|].
    by rewrite filter_cons, decide_False. }
  destruct (market_prices_loop_raises wr [] ids w s Hw Hin Hp Hempty) as [e He].
  split; [by exists e|].
  pose proof (seller_prices_loop_inv wr [] ids) as Hinv.
  unfold Seller.create_prices. split.
  - intros Htext. split.
    { unfold Market.create_prices. rewrite He. f_equal.
      by eapply market_prices_loop_error. }
    destruct (Seller.create_prices_loop wr [] ids) as [prices|e'].
    + destruct Hinv as (new & -> & Hnew). exists new. split; [done|].
      assert (w ∈ filter (λ w, Spec.code w ∈ ids) wr) as Hwf.
      { by apply list_elem_of_filter. }
      apply list_elem_of_lookup in Hwf as [i Hi].
      destruct (Forall2_lookup_l _ _ _ _ _ Hnew Hi) as (p & Hpi & s' & Hs' & ->).
      rewrite Hp in Hs'. injection Hs' as <-.
      apply list_elem_of_lookup. exists i. rewrite Hpi.
      unfold Spec.ozon_price. by rewrite Hempty.
    + destruct Hinv as (_ & w' & Hw' & Hin' & Hno).
      destruct (Htext w' Hw' Hin') as [s' Hs']. by destruct (Hno s').
  - intros w' Hw' Hin' Hno.
    destruct (Seller.create_prices_loop wr [] ids) as [prices|e'].
    + destruct Hinv as (new & _ & Hnew).
      assert (w' ∈ filter (λ w, Spec.code w ∈ ids) wr) as Hwf.
      { by apply list_elem_of_filter. }
      apply list_elem_of_lookup in Hwf as [i Hi].
      destruct (Forall2_lookup_l _ _ _ _ _ Hnew Hi) as (p & _ & s' & Hs' & _).
      by destruct (Hno s').
    + by destruct Hinv as [-> _].
Qed.

Lemma C10_empty_price_witness :
  Market.create_prices (H := Sample.interpreter)
    [Sample.record "X" "2" "abc"] ["X"] = Raise ValueError
  ∧ ∃ prices,
      Seller.create_prices [Sample.record "X" "2" "abc"] ["X"] = Ok prices
      ∧ {| Seller.auto_action_enabled := "UNKNOWN";
           Seller.currency_code := "RUB";
           Seller.price_offer_id := Spec.code (Sample.record "X" "2" "abc");
           Seller.old_price := "0";
           Seller.price := "" |} ∈ prices.
Proof.
  destruct (C10_empty_price (H := Sample.interpreter)
              [Sample.record "X" "2" "abc"] ["X"] (Sample.record "X" "2" "abc") "abc")
    as (_ & Hboth & _).
  - left.
  - vm_compute. left.
  - vm_compute. reflexivity.
  - vm_compute. repeat constructor; lia.
  - apply Hboth. intros w' ->%list_elem_of_singleton _.
    exists "abc". vm_compute. reflexivity.
Defined.

(** C10 as stated fails when the price cell of another matched record holds
    a number instead of text: the record "X" is matched and its price "abc"
    has no digit before a ".", yet the Ozon [create_prices] does not
    return: [price_conversion] of the integer 5990 raises
    [AttributeError]. *)
Lemma C10_price_cell_with_number :
  Sample.record "X" "2" "abc"
    ∈ [ Sample.record "X" "2" "abc";
        {[ Код := PStr "Y"; Количество := PStr "3"; Цена := PInt 5990 ]} ]
  ∧ Spec.code (Sample.record "X" "2" "abc") ∈ ["X"; "Y"]
  ∧ get (Sample.record "X" "2" "abc") Цена = PStr "abc"
  ∧ Forall (λ c, ¬ Spec.is_decimal_digit c)
           (Spec.before_first_dot (list_ascii_of_string "abc"))
  ∧ Seller.create_prices
      [ Sample.record "X" "2" "abc";
        {[ Код := PStr "Y"; Количество := PStr "3"; Цена := PInt 5990 ]} ]
      ["X"; "Y"]
    = Raise AttributeError.
Proof.
  split_and!.
  - left.
  - vm_compute. left.
  - vm_compute. reflexivity.
  - vm_compute. repeat constructor; lia.
  - vm_compute. reflexivity.
Qed.

(** ** Listing a catalog page by page *)

Lemma io_bind_ret_inv {R A B} (m : io R A) (f : A → B) (s s' : run R) (b : B) :
  (a ← m; mret (f a)) s = Some (Ok b, s')
  ↔ ∃ a, m s = Some (Ok a, s') ∧ b = f a.
Proof.
  unfold mbind, io_bind, mret, io_ret.
  destruct (m s) as [[[a|e] s1]|]; split; try done.
  - intros [= <- <-]. by exists a.
  - by intros (a' & [= <- <-] & ->).
  - by intros (? & ? & _).
  - by intros (? & ? & _).
Qed.

Section ozon_catalog.
Implicit Types (w : Seller.world) (s : run Seller.request) (pages : list Seller.Page).

Lemma ozon_loop_spec w fuel client_id seller_token cursor acc s product_list s' :
  Seller.get_offer_ids_loop w fuel client_id seller_token cursor acc s
    = Some (Ok product_list, s')
  ↔ ∃ pages,
      List.length pages ≤ fuel
      ∧ Spec.ozon_answers w (clock s) client_id seller_token cursor pages
      ∧ Spec.ozon_signal_at_last (List.length acc) pages
      ∧ product_list = acc ++ List.concat (Seller.items <$> pages)
      ∧ s' = Run (clock s + List.length pages)
                 (sent s ++ Spec.ozon_requests client_id seller_token cursor pages)
                 (stdout s).
Proof.
  revert cursor acc s. induction fuel as [|fuel IH]; intros cursor acc s.
  { simpl. split; [done|]. intros ([|p ps] & Hlen & _ & Hsig & _); [done|simpl in Hlen; lia]. }
  cbn [Seller.get_offer_ids_loop]. unfold mbind, io_bind, Seller.get_product_list, call.
  destruct (Seller.product_list w (clock s) cursor client_id seller_token) as [p|e] eqn:Hp.
  2: { split; [done|]. intros ([|p ps] & _ & Hans & Hsig & _); [done|].
       destruct Hans as [Hans _]. congruence. }
  case_bool_decide as Hsig.
  - unfold mret, io_ret. split.
    + intros [= <- <-]. exists [p]. simpl. rewrite length_app in Hsig.
      split_and!; [lia|done..| |].
      * by rewrite app_nil_r.
      * f_equal. lia.
    + intros ([|p' ps] & Hlen & Hans & Hstop & -> & ->); [done|].
      destruct Hans as [Hans _]. rewrite Hans in Hp. injection Hp as ->.
      destruct ps as [|p2 ps].
      * simpl. rewrite app_nil_r. do 3 f_equal. lia.
      * destruct Hstop as [Hno _]. rewrite length_app in Hsig. done.
  - rewrite IH. simpl. split.
    + intros (ps & Hlen & Hans & Hstop & -> & ->). exists (p :: ps).
      rewrite length_app in Hsig, Hstop. simpl. split_and!; [lia|done..| | |].
      * destruct ps; [done|]. done.
      * by rewrite <- app_assoc.
      * rewrite <- app_assoc. simpl. f_equal. lia.
    + intros ([|p' ps] & Hlen & Hans & Hstop & -> & ->); [done|].
      destruct Hans as [Hans Hrest]. rewrite Hans in Hp. injection Hp as ->.
      rewrite length_app in Hsig. exists ps. simpl in *.
      destruct ps as [|p2 ps]; [done|]. destruct Hstop as [_ Hstop].
      rewrite length_app. split_and!; [lia|done..| |].
      * by rewrite <- app_assoc.
      * rewrite <- app_assoc. simpl. f_equal. lia.
Qed.

End ozon_catalog.

Section yandex_catalog.
Implicit Types (w : Market.world) (s : run Market.request) (pages : list Market.Page).

Lemma falsy_no_next_page (p : Market.Page) :
  Market.falsy (Market.nextPageToken p) = true ↔ Spec.no_next_page p.
Proof.
  unfold Market.falsy, Spec.no_next_page.
  destruct (Market.nextPageToken p) as [t|]; [|by split; [left|]].
  rewrite bool_decide_eq_true. split; [intros ->; by right|].
  by intros [?|[= ->]].
Qed.

Lemma yandex_loop_spec w fuel campaign_id market_token cursor acc s product_list s' :
  Market.get_offer_ids_loop w fuel campaign_id market_token cursor acc s
    = Some (Ok product_list, s')
  ↔ ∃ pages,
      List.length pages ≤ fuel
      ∧ Spec.yandex_answers w (clock s) campaign_id market_token cursor pages
      ∧ Spec.yandex_signal_at_last pages
      ∧ product_list = acc ++ List.concat (Market.offerMappingEntries <$> pages)
      ∧ s' = Run (clock s + List.length pages)
                 (sent s ++ Spec.yandex_requests campaign_id market_token cursor pages)
                 (stdout s).
Proof.
  revert cursor acc s. induction fuel as [|fuel IH]; intros cursor acc s.
  { simpl. split; [done|]. intros ([|p ps] & Hlen & _ & Hsig & _); [done|simpl in Hlen; lia]. }
  cbn [Market.get_offer_ids_loop]. unfold mbind, io_bind, Market.get_product_list, call.
  destruct (Market.offer_mapping_entries w (clock s) cursor campaign_id market_token)
    as [p|e] eqn:Hp.
  2: { split; [done|]. intros ([|p ps] & _ & Hans & Hsig & _); [done|].
       destruct Hans as [Hans _]. congruence. }
  destruct (Market.falsy (Market.nextPageToken p)) eqn:Hsig.
  - apply falsy_no_next_page in Hsig. unfold mret, io_ret. split.
    + intros [= <- <-]. exists [p]. simpl.
      split_and!; [lia|done..| |].
      * by rewrite app_nil_r.
      * f_equal. lia.
    + intros ([|p' ps] & Hlen & Hans & Hstop & -> & ->); [done|].
      destruct Hans as [Hans _]. rewrite Hans in Hp. injection Hp as ->.
      destruct ps as [|p2 ps].
      * simpl. rewrite app_nil_r. do 3 f_equal. lia.
      * by destruct Hstop as [Hno _].
  - assert (¬ Spec.no_next_page p) as Hno.
    { rewrite <- falsy_no_next_page. by rewrite Hsig. }
    rewrite IH. simpl. fold (Spec.yandex_cursor p). split.
    + intros (ps & Hlen & Hans & Hstop & -> & ->). exists (p :: ps).
      simpl. split_and!; [lia|done..| | |].
      * destruct ps; [done|]. done.
      * by rewrite <- app_assoc.
      * rewrite <- app_assoc. simpl. f_equal. lia.
    + intros ([|p' ps] & Hlen & Hans & Hstop & -> & ->); [done|].
      destruct Hans as [Hans Hrest]. rewrite Hans in Hp. injection Hp as ->.
      exists ps. simpl in *.
      destruct ps as [|p2 ps]; [done|]. destruct Hstop as [_ Hstop].
      split_and!; [lia|done..| |].
      * by rewrite <- app_assoc.
      * rewrite <- app_assoc. simpl. f_equal. lia.
Qed.

End yandex_catalog.

(** C8: [get_offer_ids] returns exactly when the world answers a finite run
    of pages in which the marketplace's signal occurs at the last page and
    at none before it -- for Ozon, the reported total equals the number of
    items accumulated; for Yandex, the page carries no next-page token --
    and it then returns the offer ids of the items of all those pages, in
    order, having made one request per page.  (With no such run within the
    fuel, the loop has not ended or a request raised.) *)
Theorem C8_get_offer_ids_pages :
  (∀ (w : Seller.world) (fuel : nat) (client_id seller_token : string)
     (s s' : run Seller.request) (offer_ids : list string),
     Seller.get_offer_ids w fuel client_id seller_token s = Some (Ok offer_ids, s')
     ↔ ∃ pages,
         List.length pages ≤ fuel
         ∧ Spec.ozon_answers w (clock s) client_id seller_token "" pages
         ∧ Spec.ozon_signal_at_last 0 pages
         ∧ offer_ids = Seller.offer_id <$> List.concat (Seller.items <$> pages)
         ∧ s' = Run (clock s + List.length pages)
                    (sent s ++ Spec.ozon_requests client_id seller_token "" pages)
                    (stdout s))
  ∧ (∀ (w : Market.world) (fuel : nat) (campaign_id market_token : string)
       (s s' : run Market.request) (offer_ids : list string),
       Market.get_offer_ids w fuel campaign_id market_token s = Some (Ok offer_ids, s')
       ↔ ∃ pages,
           List.length pages ≤ fuel
           ∧ Spec.yandex_answers w (clock s) campaign_id market_token "" pages
           ∧ Spec.yandex_signal_at_last pages
           ∧ offer_ids
             = Market.shopSku <$> List.concat (Market.offerMappingEntries <$> pages)
           ∧ s' = Run (clock s + List.length pages)
                      (sent s ++ Spec.yandex_requests campaign_id market_token "" pages)
                      (stdout s)).
Proof.
  split.
  - intros w fuel client_id seller_token s s' offer_ids.
    unfold Seller.get_offer_ids. rewrite io_bind_ret_inv. split.
    + intros (pl & (pages & ? & ? & ? & -> & ->)%ozon_loop_spec & ->).
      by exists pages.
    + intros (pages & ? & ? & ? & -> & ->). eexists. split; [|done].
      apply ozon_loop_spec. by exists pages.
  - intros w fuel campaign_id market_token s s' offer_ids.
    unfold Market.get_offer_ids. rewrite io_bind_ret_inv. split.
    + intros (pl & (pages & ? & ? & ? & -> & ->)%yandex_loop_spec & ->).
      by exists pages.
    + intros (pages & ? & ? & ? & -> & ->). eexists. split; [|done].
      apply yandex_loop_spec. by exists pages.
Qed.

(** Two pages each: the loop ends at the second page, and has not ended
    when the fuel allows one iteration only. *)
Example ozon_two_pages :
  Seller.get_offer_ids Sample.ozon_world_two_pages 2 "id" "token" (Run 0 [] [])
  = Some (Ok ["A"; "B"; "C"],
          Run 2 [Seller.ProductList "" "id" "token";
                 Seller.ProductList "B" "id" "token"] [])
  ∧ Seller.get_offer_ids Sample.ozon_world_two_pages 1 "id" "token" (Run 0 [] [])
    = None.
Proof. split; vm_compute; reflexivity. Qed.

Example yandex_two_pages :
  Market.get_offer_ids Sample.yandex_world_two_pages 2 "id" "token" (Run 0 [] [])
  = Some (Ok ["A"; "B"; "C"],
          Run 2 [Market.OfferMappingEntries "" "id" "token";
                 Market.OfferMappingEntries "next" "id" "token"] [])
  ∧ Market.get_offer_ids Sample.yandex_world_two_pages 1 "id" "token" (Run 0 [] [])
    = None.
Proof. split; vm_compute; reflexivity. Qed.

(** ** Records outside the catalog *)

Section unmatched.
Context `{Interpreter}.
Implicit Types (w : watch) (wr pre rest : list watch) (ids : list string).

Lemma seller_loop_skip pre rest acc ids :
  (∀ w, w ∈ pre → Spec.code w ∉ ids) →
  Seller.create_stocks_loop (pre ++ rest) acc ids
  = Seller.create_stocks_loop rest acc ids.
Proof.
  induction pre as [|w pre IH]; intros Hpre; [done|].
  rewrite <- app_comm_cons, seller_loop_cons, decide_False by (apply Hpre; left).
  apply IH. intros w' ?. apply Hpre. by right.
Qed.

Lemma seller_create_stocks_skip pre rest ids :
  (∀ w, w ∈ pre → Spec.code w ∉ ids) →
  Seller.create_stocks (pre ++ rest) ids = Seller.create_stocks rest ids.
Proof. intros Hpre. by rewrite !seller_create_stocks_unfold, seller_loop_skip. Qed.

Lemma market_create_stocks_skip pre rest ids warehouse_id date :
  (∀ w, w ∈ pre → Spec.code w ∉ ids) →
  Market.create_stocks (pre ++ rest) ids warehouse_id date
  = Market.create_stocks rest ids warehouse_id date.
Proof. intros Hpre. by rewrite !market_create_stocks_sim, seller_create_stocks_skip. Qed.

Lemma seller_prices_loop_unmatched wr acc ids :
  (∀ w, w ∈ wr → Spec.code w ∉ ids) →
  Seller.create_prices_loop wr acc ids = Ok acc.
Proof.
  induction wr as [|w wr IH]; intros Hwr; [done|].
  cbn [Seller.create_prices_loop]. fold (Spec.code w).
  rewrite bool_decide_eq_false_2 by (apply Hwr; left).
  apply IH. intros w' ?. apply Hwr. by right.
Qed.

Lemma market_prices_loop_unmatched wr acc ids :
  (∀ w, w ∈ wr → Spec.code w ∉ ids) →
  Market.create_prices_loop wr acc ids = Ok acc.
Proof.
  induction wr as [|w wr IH]; intros Hwr; [done|].
  cbn [Market.create_prices_loop]. fold (Spec.code w).
  rewrite bool_decide_eq_false_2 by (apply Hwr; left).
  apply IH. intros w' ?. apply Hwr. by right.
Qed.

Lemma seller_create_stocks_unmatched wr ids :
  (∀ w, w ∈ wr → Spec.code w ∉ ids) →
  Seller.create_stocks wr ids = (Ok (Spec.zero_entry <$> ids), ids).
Proof.
  intros Hwr. rewrite <- (app_nil_r wr), seller_create_stocks_skip by done.
  reflexivity.
Qed.

End unmatched.

(** ** Running the reconciliation twice *)

Lemma sublist_same_length {A} (l k : list A) :
  l `sublist_of` k → List.length k ≤ List.length l → l = k.
Proof.
  induction 1 as [|x l k Hsub IH|x l k Hsub IH]; simpl; intros Hlen.
  - done.
  - f_equal. apply IH. lia.
  - apply sublist_length in Hsub. lia.
Qed.

Lemma remove_submseteq x l l' k k' :
  remove x l = Some l' → remove x k = Some k' → k ⊆+ l → k' ⊆+ l'.
Proof.
  intros Hl%remove_Some_perm Hk%remove_Some_perm Hsub.
  rewrite Hl, Hk in Hsub. by apply (submseteq_app_inv_l _ _ [x]).
Qed.

Lemma remove_submseteq_absent x l l' k :
  remove x l = Some l' → x ∉ k → k ⊆+ l → k ⊆+ l'.
Proof.
  intros Hl%remove_Some_perm Hx Hsub. rewrite Hl in Hsub.
  apply submseteq_cons_r in Hsub as [?|(k' & Hk & _)]; [done|].
  destruct Hx. rewrite Hk. left.
Qed.

Section twice.
Context `{Interpreter}.
Implicit Types (w : watch) (wr rest : list watch) (ids jds : list string)
  (acc stocks : list Seller.Stock).

(** A call of [create_stocks] that returns says how long its list is, and
    what is in it: the entries of the matched records, then one zero entry
    for each id left in the caller's list. *)
Lemma seller_create_stocks_returns wr ids stocks ids' :
  Seller.create_stocks wr ids = (Ok stocks, ids') →
  ∃ matched,
    Seller.create_stocks_loop wr [] ids = (Ok matched, ids')
    ∧ stocks = matched ++ (Spec.zero_entry <$> ids')
    ∧ (Seller.stock_offer_id <$> matched) ++ ids' ≡ₚ ids
    ∧ List.length stocks = List.length ids.
Proof.
  rewrite seller_create_stocks_unfold.
  destruct (Seller.create_stocks_loop wr [] ids) as [[matched|e] ids1] eqn:Hloop; [|done].
  intros [= <- <-]. exists matched.
  destruct (seller_loop_inv _ _ _ _ _ Hloop) as (_ & new & -> & Hperm & _).
  simpl in *. split_and!; [done..|].
  by rewrite <- Hperm, !length_app, !length_fmap.
Qed.

(** The first loop of [create_stocks] on a list that holds no more than the
    list of a call that returned: it returns too, and leaves no more. *)
Lemma seller_loop_again wr acc ids stocks ids1 acc2 jds :
  Seller.create_stocks_loop wr acc ids = (Ok stocks, ids1) →
  jds ⊆+ ids →
  ∃ stocks2 jds1,
    Seller.create_stocks_loop wr acc2 jds = (Ok stocks2, jds1) ∧ jds1 ⊆+ ids1.
Proof.
  revert acc ids acc2 jds. induction wr as [|w rest IH]; intros acc ids acc2 jds.
  { simpl. intros [= _ <-] Hsub. by exists acc2, jds. }
  rewrite !seller_loop_cons. destruct (decide (Spec.code w ∈ ids)) as [Hin|Hin].
  - destruct (Spec.mapped_count w) as [c|e]; [|done].
    destruct (remove_is_Some _ _ Hin) as [ids_r Hrm]. rewrite Hrm.
    intros Hloop Hsub. destruct (decide (Spec.code w ∈ jds)) as [Hjn|Hjn].
    + destruct (remove_is_Some _ _ Hjn) as [jds_r Hjrm]. rewrite Hjrm.
      eapply IH; [done|]. by eapply remove_submseteq.
    + eapply IH; [done|]. by eapply remove_submseteq_absent.
  - intros Hloop Hsub. rewrite decide_False; [by eapply IH|].
    intros Hjn. apply Hin. by eapply elem_of_submseteq.
Qed.

(** [create_prices] on a list that holds no other id than the list of a
    call that returned: it returns too. *)
Lemma seller_prices_loop_again wr (acc : list Seller.Price) ids prices
    (acc2 : list Seller.Price) jds :
  Seller.create_prices_loop wr acc ids = Ok prices →
  (∀ x, x ∈ jds → x ∈ ids) →
  ∃ prices2, Seller.create_prices_loop wr acc2 jds = Ok prices2.
Proof.
  intros Hloop Hsub. revert acc acc2 Hloop.
  induction wr as [|w rest IH]; intros acc acc2; [by exists acc2|].
  cbn [Seller.create_prices_loop]. fold (Spec.code w).
  destruct (decide (Spec.code w ∈ jds)) as [Hjn|Hjn];
    [rewrite (bool_decide_eq_true_2 (Spec.code w ∈ jds)) by done
    |rewrite (bool_decide_eq_false_2 (Spec.code w ∈ jds)) by done].
  - rewrite (bool_decide_eq_true_2 (Spec.code w ∈ ids)) by by apply Hsub.
    destruct (Seller.price_conversion_cell (get w Цена)) as [p|e]; [|done]. simpl.
    apply IH.
  - case_bool_decide; [|apply IH].
    destruct (Seller.price_conversion_cell (get w Цена)) as [p|e]; [|done]. simpl.
    apply IH.
Qed.

End twice.

(** C9 (as the code has it): two runs of [create_stocks] then
    [create_prices] with the same records.  The first run leaves in its list
    object what [create_stocks] left there, a sub-list of what it held.  A
    second run on a list object of its own that holds what the first run's
    list held ends as the first did: the same output in the same order, or
    the same exception.  A second run on the very list object of the first,
    when the first returned: the first stock list has the entries of the
    matched records and then a zero entry for each id left, one entry per id
    of the catalog in all; the second run returns too, its stock list has one
    entry per id that was left, and its output is the first's exactly when
    no record's code was in the catalog.  With a catalog that repeats no id,
    the second stock list is a zero entry for each id left and the second
    price list is empty. *)
Theorem C9_reconcile_twice `{Interpreter}
    (wr : list watch) (first : positive)
    (heap : gmap positive (list string)) (ids : list string) :
  heap !! first = Some ids →
  ∃ out ids',
    Seller.reconcile wr first heap = Some (out, <[first := ids']> heap)
    ∧ (Seller.create_stocks wr ids).2 = ids'
    ∧ ids' `sublist_of` ids
    ∧ (∀ second, second ≠ first → heap !! second = Some ids →
         ∃ heap2,
           Seller.reconcile wr second (<[first := ids']> heap) = Some (out, heap2))
    ∧ (∀ stocks prices, out = Ok (stocks, prices) →
         (∃ matched,
            stocks = matched ++ (Spec.zero_entry <$> ids')
            ∧ (Seller.stock_offer_id <$> matched) ++ ids' ≡ₚ ids)
         ∧ List.length stocks = List.length ids
         ∧ ∃ stocks2 prices2 heap2,
             Seller.reconcile wr first (<[first := ids']> heap)
             = Some (Ok (stocks2, prices2), heap2)
             ∧ List.length stocks2 = List.length ids'
             ∧ ((stocks2, prices2) = (stocks, prices)
                ↔ ∀ w, w ∈ wr → Spec.code w ∉ ids)
             ∧ (NoDup ids →
                stocks2 = Spec.zero_entry <$> ids' ∧ prices2 = [])).
Proof.
  intros Hids. unfold Seller.reconcile at 1. rewrite Hids. simpl.
  destruct (Seller.create_stocks wr ids) as [rs ids'] eqn:Hcs.
  eexists _, ids'. split; [reflexivity|]. split; [done|].
  assert (ids' `sublist_of` ids) as Hsub.
  { rewrite seller_create_stocks_unfold in Hcs.
    destruct (Seller.create_stocks_loop wr [] ids) as [r ids1] eqn:Hloop.
    apply seller_loop_inv in Hloop as [Hsub _].
    by destruct r; injection Hcs as _ <-. }
  split; [done|]. split.
  { intros second Hne Hsecond. unfold Seller.reconcile.
    rewrite lookup_insert_ne, Hsecond by done. simpl. rewrite Hcs. by eexists. }
  intros stocks prices Hout.
  destruct rs as [stocks0|e]; [|done]. simpl in Hout.
  destruct (Seller.create_prices wr ids') as [prices0|e] eqn:Hcp; [|done].
  injection Hout as <- <-.
  destruct (seller_create_stocks_returns _ _ _ _ Hcs)
    as (matched & Hloop & Hstocks & Hperm & Hlen).
  split; [by exists matched|]. split; [done|].
  unfold Seller.reconcile. rewrite lookup_insert_eq. simpl.
  destruct (seller_loop_again wr [] ids matched ids' [] ids' Hloop)
    as (matched2 & ids2 & Hloop2 & Hsub2); [by apply sublist_submseteq|].
  assert (Seller.create_stocks wr ids'
          = (Ok (matched2 ++ (Spec.zero_entry <$> ids2)), ids2)) as Hcs2.
  { by rewrite seller_create_stocks_unfold, Hloop2. }
  rewrite Hcs2. simpl.
  destruct (seller_prices_loop_again wr [] ids' prices0 [] ids2 Hcp) as [prices2 Hcp2].
  { intros x ?. by eapply elem_of_submseteq. }
  unfold Seller.create_prices at 1. rewrite Hcp2. simpl.
  eexists _, _, _. split; [reflexivity|].
  destruct (seller_create_stocks_returns _ _ _ _ Hcs2) as (_ & _ & _ & _ & Hlen2).
  split; [done|]. split.
  - rewrite <- (seller_loop_unchanged wr [] ids matched ids' Hloop). split.
    + intros [= Heq _]. apply sublist_same_length; [done|].
      rewrite <- Hlen, <- Hlen2, Heq. done.
    + intros ->. rewrite Hcs in Hcs2. injection Hcs2 as -> <-.
      unfold Seller.create_prices in Hcp. congruence.
  - intros Hnd. destruct (seller_loop_NoDup _ _ _ _ _ Hnd Hloop) as [_ Hleft].
    rewrite (seller_create_stocks_unmatched wr ids' Hleft) in Hcs2.
    injection Hcs2 as <- <-. split; [done|].
    rewrite (seller_prices_loop_unmatched wr [] ids' Hleft) in Hcp2. congruence.
Qed.

Lemma C9_reconcile_twice_witness :
  ∃ out ids',
    Seller.reconcile (H := Sample.interpreter)
      [Sample.record "X" ">10" "1'000.00 руб."] 1 {[ 1%positive := ["X"; "Y"] ]}
    = Some (out, <[1%positive := ids']> {[ 1%positive := ["X"; "Y"] ]})
    ∧ (Seller.create_stocks (H := Sample.interpreter)
         [Sample.record "X" ">10" "1'000.00 руб."] ["X"; "Y"]).2 = ids'
    ∧ ids' `sublist_of` ["X"; "Y"]
    ∧ (∀ second, second ≠ 1%positive →
         ({[ 1%positive := ["X"; "Y"] ]} : gmap positive (list string)) !! second
         = Some ["X"; "Y"] →
         ∃ heap2,
           Seller.reconcile (H := Sample.interpreter)
             [Sample.record "X" ">10" "1'000.00 руб."] second
             (<[1%positive := ids']> {[ 1%positive := ["X"; "Y"] ]})
           = Some (out, heap2))
    ∧ (∀ stocks prices, out = Ok (stocks, prices) →
         (∃ matched,
            stocks = matched ++ (Spec.zero_entry <$> ids')
            ∧ (Seller.stock_offer_id <$> matched) ++ ids' ≡ₚ ["X"; "Y"])
         ∧ List.length stocks = List.length ["X"; "Y"]
         ∧ ∃ stocks2 prices2 heap2,
             Seller.reconcile (H := Sample.interpreter)
               [Sample.record "X" ">10" "1'000.00 руб."] 1
               (<[1%positive := ids']> {[ 1%positive := ["X"; "Y"] ]})
             = Some (Ok (stocks2, prices2), heap2)
             ∧ List.length stocks2 = List.length ids'
             ∧ ((stocks2, prices2) = (stocks, prices)
                ↔ ∀ w, w ∈ [Sample.record "X" ">10" "1'000.00 руб."] →
                       Spec.code w ∉ ["X"; "Y"])
             ∧ (NoDup ["X"; "Y"] →
                stocks2 = Spec.zero_entry <$> ids' ∧ prices2 = [])).
Proof.
  apply (C9_reconcile_twice (H := Sample.interpreter)
           [Sample.record "X" ">10" "1'000.00 руб."] 1
           {[ 1%positive := ["X"; "Y"] ]} ["X"; "Y"]).
  vm_compute. reflexivity.
Defined.

(** C9 as stated fails when the second run is handed the very list object
    of the first: that list has lost "X", so the second run's stock list
    differs from the first's. *)
Lemma C9_same_list_object :
  fst <$> Seller.reconcile (H := Sample.interpreter)
            [Sample.record "X" ">10" "1'000.00 руб."] 1 {[ 1%positive := ["X"; "Y"] ]}
  = Some (Ok ([ {| Seller.stock_offer_id := "X"; Seller.stock := 100 |};
                {| Seller.stock_offer_id := "Y"; Seller.stock := 0 |} ], []))
  ∧ (Seller.reconcile (H := Sample.interpreter)
       [Sample.record "X" ">10" "1'000.00 руб."] 1 {[ 1%positive := ["X"; "Y"] ]}
     ≫= λ '(_, heap1),
       fst <$> Seller.reconcile (H := Sample.interpreter)
                 [Sample.record "X" ">10" "1'000.00 руб."] 1 heap1)
    = Some (Ok ([ {| Seller.stock_offer_id := "Y"; Seller.stock := 0 |} ], [])).
Proof. split; vm_compute; reflexivity. Qed.

(** ** The entry points *)

Section main.
Context `{Interpreter}.

(** [seller.main] has every step of the pipeline inside its [try]
    statement: once the two variables are read, no exception leaves it. *)
Lemma seller_main_catches_all (w : Seller.world) (fuel : nat) (s : run Seller.request) :
  is_Some (Seller.environ w "SELLER_TOKEN") →
  is_Some (Seller.environ w "CLIENT_ID") →
  exit_status (Seller.main w fuel s) ≠ Some 1%Z.
Proof.
  intros [seller_token Ht] [client_id Hc].
  unfold Seller.main, Seller.env_str. rewrite Ht, Hc.
  unfold mbind at 1 2, io_bind at 1 2, mret at 1 2, io_ret at 1 2. unfold try_except.
  match goal with |- context [match ?body s with _ => _ end] => destruct (body s) as [[[[]|e] s1]|] end;
    [done| |done].
  unfold Seller.handler. by destruct e.
Qed.

(** So does [market.main] for what runs inside its [try] statement: once
    the variables are read and the download has returned, no exception
    leaves it. *)
Lemma market_main_catches_after_download (w : Market.world) (fuel : nat)
    (s : run Market.request) (records : list watch) :
  (∀ name, is_Some (Market.environ w name)) →
  Market.ostatki w (clock s) = Ok records →
  exit_status (Market.main w fuel s) ≠ Some 1%Z.
Proof.
  intros Henv Hdown. unfold Market.main, Market.env_str.
  destruct (Henv "MARKET_TOKEN") as [? ->]. destruct (Henv "FBS_ID") as [? ->].
  destruct (Henv "DBS_ID") as [? ->]. destruct (Henv "WAREHOUSE_FBS_ID") as [? ->].
  destruct (Henv "WAREHOUSE_DBS_ID") as [? ->].
  unfold mbind at 1 2 3 4 5 6, io_bind at 1 2 3 4 5 6, mret at 1 2 3 4 5, io_ret at 1 2 3 4 5.
  unfold Market.download_stock, call. rewrite Hdown. unfold try_except.
  match goal with
  | |- context [match ?body ?s1 with _ => _ end] =>
      destruct (body s1) as [[[[]|e] s2]|]
  end; [done| |done].
  unfold Market.handler. by destruct e.
Qed.

End main.

(** The coroutine of [seller.upload_prices] fetches the catalog itself, and
    on the sample snapshot it uploads the price of "X". *)
Example seller_upload_prices_sample :
  Seller.upload_prices
    (Sample.ozon_world ["X"; "Y"] [Sample.record "X" ">10" "1'000.00 руб."]) 1
    [Sample.record "X" ">10" "1'000.00 руб."] "id" "token" (Run 0 [] [])
  = Some (Ok [Spec.ozon_price (Sample.record "X" ">10" "1'000.00 руб.") "1'000.00 руб."],
          Run 2 [ Seller.ProductList "" "id" "token";
                  Seller.ImportPrices
                    [ {| Seller.auto_action_enabled := "UNKNOWN";
                         Seller.currency_code := "RUB";
                         Seller.price_offer_id := "X";
                         Seller.old_price := "0";
                         Seller.price := "1000" |} ]
                    "id" "token" ]
              []).
Proof. vm_compute. reflexivity. Qed.

(** C2, on the code: [seller.main] on the sample snapshot uploads the stock
    batch [X: 100, Y: 0] and then makes no price request at all, because
    [create_prices] is given the list object [create_stocks] has taken "X"
    out of and so produces an empty price list; on the catalog as fetched,
    [create_prices] produces the expected entry for "X" with price "1000". *)
Theorem C2_seller_main_no_prices `{Interpreter} :
  let records := [Sample.record "X" ">10" "1'000.00 руб."] in
  let catalog := ["X"; "Y"] in
  Seller.main (Sample.ozon_world catalog records) 1 (Run 0 [] [])
  = Some (Ok tt,
          Run 3 [ Seller.ProductList "" "secret" "secret";
                  Seller.Ostatki;
                  Seller.ImportStocks
                    [ {| Seller.stock_offer_id := "X"; Seller.stock := 100 |};
                      {| Seller.stock_offer_id := "Y"; Seller.stock := 0 |} ]
                    "secret" "secret" ]
              [])
  ∧ Seller.create_stocks records catalog
    = (Ok [ {| Seller.stock_offer_id := "X"; Seller.stock := 100 |};
            {| Seller.stock_offer_id := "Y"; Seller.stock := 0 |} ],
       ["Y"])
  ∧ Seller.create_prices records ["Y"] = Ok []
  ∧ Seller.create_prices records catalog
    = Ok [ {| Seller.auto_action_enabled := "UNKNOWN";
              Seller.currency_code := "RUB";
              Seller.price_offer_id := "X";
              Seller.old_price := "0";
              Seller.price := "1000" |} ].
Proof. split_and!; vm_compute; reflexivity. Qed.

(** C4, on the code: [market.main] calls [download_stock()] before its
    [try] statement, so an exception of the download is not handled: it
    leaves [main] with nothing printed and the process ends with status 1. *)
Theorem C4_market_download_uncaught `{Interpreter}
    (w : Market.world) (fuel : nat) (s : run Market.request) (e : exn) :
  (∀ name, is_Some (Market.environ w name)) →
  Market.ostatki w (clock s) = Raise e →
  Market.main w fuel s
  = Some (Raise e, Run (S (clock s)) (sent s ++ [Market.Ostatki]) (stdout s))
  ∧ exit_status (Market.main w fuel s) = Some 1%Z.
Proof.
  intros Henv Hdown.
  assert (Market.main w fuel s
          = Some (Raise e, Run (S (clock s)) (sent s ++ [Market.Ostatki]) (stdout s)))
    as Hmain.
  { unfold Market.main, Market.env_str.
    destruct (Henv "MARKET_TOKEN") as [? ->]. destruct (Henv "FBS_ID") as [? ->].
    destruct (Henv "DBS_ID") as [? ->]. destruct (Henv "WAREHOUSE_FBS_ID") as [? ->].
    destruct (Henv "WAREHOUSE_DBS_ID") as [? ->].
    unfold mbind, io_bind, mret, io_ret, Market.download_stock, call.
    by rewrite Hdown. }
  by rewrite Hmain.
Qed.

Lemma C4_market_download_uncaught_witness :
  Market.main (H := Sample.interpreter) Sample.yandex_world_offline 1 (Run 0 [] [])
  = Some (Raise ConnectionError, Run 1 ([] ++ [Market.Ostatki]) [])
  ∧ exit_status (Market.main (H := Sample.interpreter)
                   Sample.yandex_world_offline 1 (Run 0 [] [])) = Some 1%Z.
Proof.
  apply (C4_market_download_uncaught (H := Sample.interpreter)
           Sample.yandex_world_offline 1 (Run 0 [] []) ConnectionError).
  - intros name. by eexists.
  - reflexivity.
Defined.

(** * Further properties of the code *)

(** ** The batcher, for every chunk size *)

Lemma lookup_map {A B} (f : A → B) (l : list A) (i : nat) :
  map f l !! i = f <$> l !! i.
Proof. change (map f l) with (f <$> l). apply list_lookup_fmap. Qed.

Lemma range_elems_length count start step :
  List.length (range_elems count start step) = count.
Proof.
  revert start. induction count as [|count IH]; intros start; simpl; [done|].
  by rewrite IH.
Qed.

Lemma range_elems_lookup count start step i :
  i < count → range_elems count start step !! i = Some (start + i * step).
Proof.
  revert start i. induction count as [|count IH]; intros start [|i] Hi; simpl; try lia.
  - f_equal. lia.
  - rewrite IH by lia. f_equal. lia.
Qed.

Lemma range_last_start stop n count :
  0 < n → count = (stop + n - 1) / n → 0 < count → (count - 1) * n < stop.
Proof.
  intros Hn -> Hc.
  pose proof (Nat.div_mod_eq (stop + n - 1) n) as Hd.
  pose proof (Nat.mod_upper_bound (stop + n - 1) n ltac:(lia)). nia.
Qed.

(** X1: [divide] for every chunk size.  A zero size is a [ValueError] and
    a negative size gives no chunk at all, whatever the list holds.  For a
    size [n] of at least 1 there are ceil(len / [n]) chunks, chunk [i] is the
    slice of the list from [i * n] to [i * n + n], no chunk is empty, and
    every chunk but the last has exactly [n] elements. *)
Theorem X1_divide_every_size {A} (lst : list A) (n : Z) :
  (n = 0%Z → Seller.divide lst n = Raise ValueError)
  ∧ ((n < 0)%Z → Seller.divide lst n = Ok [])
  ∧ ((1 ≤ n)%Z →
     ∃ chunks,
       Seller.divide lst n = Ok chunks
       ∧ List.length chunks = (List.length lst + Z.to_nat n - 1) / Z.to_nat n
       ∧ ∀ i c, chunks !! i = Some c →
           c = take (Z.to_nat n) (drop (i * Z.to_nat n) lst)
           ∧ c ≠ []
           ∧ (S i < List.length chunks → List.length c = Z.to_nat n)).
Proof.
  unfold Seller.divide, range. split_and!.
  - by intros ->.
  - intros Hn. destruct (Z.eqb_spec n 0) as [?|_]; [lia|].
    by destruct (Z.ltb_spec n 0) as [_|?]; [|lia].
  - intros Hn. destruct (Z.eqb_spec n 0) as [?|_]; [lia|].
    destruct (Z.ltb_spec n 0) as [?|_]; [lia|].
    set (k := Z.to_nat n). assert (0 < k) as Hk by lia.
    set (count := (List.length lst + k - 1) / k).
    eexists. split; [reflexivity|].
    split; [by rewrite length_map, range_elems_length|].
    intros i c. rewrite length_map, range_elems_length, lookup_map.
    destruct (decide (i < count)) as [Hi|Hi].
    2: { rewrite (proj2 (lookup_ge_None _ _)); [done|].
         rewrite range_elems_length. lia. }
    rewrite range_elems_lookup by done. simpl. intros [= <-].
    rewrite slice_step. split; [done|].
    pose proof (range_last_start (List.length lst) k count Hk eq_refl ltac:(lia)) as Hlast.
    assert (i * k ≤ (count - 1) * k) as Hik by (apply Nat.mul_le_mono_r; lia).
    split.
    + intros Hnil%(f_equal List.length). rewrite length_take, length_drop in Hnil.
      simpl in Hnil. lia.
    + intros HS. rewrite length_take, length_drop.
      assert (S i * k ≤ (count - 1) * k) as HSk by (apply Nat.mul_le_mono_r; lia).
      simpl in HSk. lia.
Qed.

Lemma X1_divide_every_size_witness :
  Seller.divide [1; 2; 3]%Z (-2) = Ok []
  ∧ ∃ chunks,
      Seller.divide [1; 2; 3]%Z 2 = Ok chunks
      ∧ List.length chunks = (List.length [1; 2; 3]%Z + Z.to_nat 2 - 1) / Z.to_nat 2
      ∧ ∀ i c, chunks !! i = Some c →
          c = take (Z.to_nat 2) (drop (i * Z.to_nat 2) [1; 2; 3]%Z)
          ∧ c ≠ []
          ∧ (S i < List.length chunks → List.length c = Z.to_nat 2).
Proof.
  destruct (X1_divide_every_size [1; 2; 3]%Z (-2)) as (_ & Hneg & _).
  destruct (X1_divide_every_size [1; 2; 3]%Z 2) as (_ & _ & Hpos).
  split; [apply Hneg; lia|apply Hpos; lia].
Defined.

(** ** The price normalizer, composed *)

Section normalised.
Implicit Types (s h : string).

Lemma re_sub_all_digits s : Spec.all_decimal_digits (re_sub_non_digit s).
Proof.
  induction s as [|c s IH]; [done|]. simpl.
  destruct (is_digit c) eqn:Hc; [|done]. split; [by apply is_digit_true|done].
Qed.

Lemma re_sub_digits_id s : Spec.all_decimal_digits s → re_sub_non_digit s = s.
Proof.
  induction s as [|c s IH]; [done|]. intros [Hc Hs]. simpl.
  by rewrite (proj2 (is_digit_true c) Hc), IH.
Qed.

Lemma re_sub_length s : String.length (re_sub_non_digit s) ≤ String.length s.
Proof. induction s as [|c s IH]; [done|]. simpl. destruct (is_digit c); simpl; lia. Qed.

Lemma split_digits s : Spec.all_decimal_digits s → split "." s = [s].
Proof.
  induction s as [|c s IH]; [done|]. intros [Hc Hs]. simpl.
  rewrite bool_decide_eq_false_2, (IH Hs); [done|].
  intros ->. unfold Spec.is_decimal_digit in Hc. cbv in Hc. lia.
Qed.

Lemma split_head_length sep s h t :
  split sep s = h :: t → String.length h ≤ String.length s.
Proof.
  revert h t. induction s as [|c s IH]; intros h t; simpl.
  { by intros [= <- <-]. }
  case_bool_decide; [intros [= <- <-]; simpl; lia|].
  destruct (split sep s) as [|h' t'] eqn:Hs; intros [= <- <-]; simpl; [lia|].
  specialize (IH h' t' eq_refl). lia.
Qed.

Lemma price_conversion_all_digits s : Spec.all_decimal_digits (Seller.price_conversion s).
Proof.
  unfold Seller.price_conversion.
  destruct (split "." s); [done|apply re_sub_all_digits].
Qed.

Lemma price_conversion_digits_id s :
  Spec.all_decimal_digits s → Seller.price_conversion s = s.
Proof.
  intros Hs. unfold Seller.price_conversion. rewrite split_digits by done.
  by apply re_sub_digits_id.
Qed.

Lemma decimal_value_nonneg s : Spec.all_decimal_digits s → (0 ≤ Spec.decimal_value s)%Z.
Proof.
  induction s as [|c s IH]; [done|]. intros [Hc Hs]. cbn [Spec.decimal_value].
  specialize (IH Hs). unfold Spec.is_decimal_digit in Hc.
  assert (0 ≤ 10 ^ Z.of_nat (String.length s))%Z by (apply Z.pow_nonneg; lia). nia.
Qed.

End normalised.

(** X2: the text [price_conversion] returns holds decimal digits only and
    is no longer than its argument; text of digits only comes back as it
    is, so converting a converted price changes nothing. *)
Theorem X2_price_conversion_digits (price : string) :
  Spec.all_decimal_digits (Seller.price_conversion price)
  ∧ String.length (Seller.price_conversion price) ≤ String.length price
  ∧ (Spec.all_decimal_digits price → Seller.price_conversion price = price)
  ∧ Seller.price_conversion (Seller.price_conversion price)
    = Seller.price_conversion price.
Proof.
  split_and!.
  - apply price_conversion_all_digits.
  - unfold Seller.price_conversion.
    destruct (split "." price) as [|h t] eqn:Hs; [simpl; lia|].
    etrans; [apply re_sub_length|]. by eapply split_head_length.
  - apply price_conversion_digits_id.
  - apply price_conversion_digits_id, price_conversion_all_digits.
Qed.

Section price_value.
Context `{Interpreter}.

(** Reading a string of digits, with the interpreter's limit taken into
    account. *)
Lemma int_of_str_digits d :
  Spec.all_decimal_digits d → d ≠ "" →
  int_of_str d =
  if decide (640 < String.length d
             ∧ int_max_str_digits ≠ 0 ∧ int_max_str_digits < String.length d)
  then None else Some (Spec.decimal_value d).
Proof.
  intros Hd Hne. unfold int_of_str, int_of_ascii.
  rewrite all_ascii_decimal, lstrip_decimal, rstrip_decimal by done.
  rewrite count_digits_decimal by done.
  case_decide as Hlim.
  - by rewrite bool_decide_eq_true_2.
  - rewrite bool_decide_eq_false_2 by done.
    destruct d as [|c d]; [done|]. destruct Hd as [Hc Hd].
    destruct (digit_no_sign c Hc).
    etrans; [|by apply (int_unsigned_decimal (String c d))].
    by apply (no_sign c d int_unsigned (λ u, Z.opp <$> int_unsigned u)).
Qed.

End price_value.

(** X3: the value the Yandex [create_prices] puts in an entry.  For a price
    cell holding text, it is the number the normalised price denotes, never
    negative; the conversion fails with a [ValueError] exactly when the
    normalised price is empty or is a numeral longer than the interpreter
    converts.  A cell that holds no text fails with an [AttributeError]. *)
Theorem X3_yandex_price_value `{Interpreter} (cell : pyval) :
  match cell with
  | PStr s =>
      let digits := Seller.price_conversion s in
      let too_long :=
        640 < String.length digits
        ∧ int_max_str_digits ≠ 0 ∧ int_max_str_digits < String.length digits in
      match Market.price_value cell with
      | Ok v => v = Spec.decimal_value digits ∧ (0 ≤ v)%Z
                ∧ digits ≠ "" ∧ ¬ too_long
      | Raise e => e = ValueError ∧ (digits = "" ∨ too_long)
      end
  | _ => Market.price_value cell = Raise AttributeError
  end.
Proof.
  destruct cell as [|s|z]; [done| |done].
  intros digits too_long. unfold Market.price_value. simpl. fold digits.
  pose proof (price_conversion_all_digits s) as Hd. fold digits in Hd.
  destruct (decide (digits = "")) as [Hempty|Hne].
  { rewrite Hempty, int_of_str_empty. split; [done|by left]. }
  rewrite (int_of_str_digits digits Hd Hne). fold too_long.
  case_decide.
  - split; [done|by right].
  - split_and!; [done|by apply decimal_value_nonneg|done..].
Qed.

(** X4: records whose code is not in the catalog are not looked at any
    further.  When no record's code is in the catalog, whatever the quantity
    and price cells hold, both [create_stocks] return one zero entry per
    offer id, in the order of the catalog, and leave the list as it was, and
    both [create_prices] return the empty list. *)
Theorem X4_no_record_in_catalog `{Interpreter}
    (wr : list watch) (ids : list string) (warehouse_id date : string) :
  (∀ w, w ∈ wr → Spec.code w ∉ ids) →
  Seller.create_stocks wr ids = (Ok (Spec.zero_entry <$> ids), ids)
  ∧ Market.create_stocks wr ids warehouse_id date
    = (Ok (map (Spec.to_sku warehouse_id date) (Spec.zero_entry <$> ids)), ids)
  ∧ Seller.create_prices wr ids = Ok []
  ∧ Market.create_prices wr ids = Ok [].
Proof.
  intros Hwr. split_and!.
  - by apply seller_create_stocks_unmatched.
  - by rewrite market_create_stocks_sim, seller_create_stocks_unmatched.
  - by apply seller_prices_loop_unmatched.
  - by apply market_prices_loop_unmatched.
Qed.

Lemma X4_no_record_in_catalog_witness :
  Seller.create_stocks (H := Sample.interpreter)
    [Sample.record "X" "abc" "n/a"] ["Y"; "Z"]
  = (Ok (Spec.zero_entry <$> ["Y"; "Z"]), ["Y"; "Z"])
  ∧ Market.create_stocks (H := Sample.interpreter)
      [Sample.record "X" "abc" "n/a"] ["Y"; "Z"] "w" "t"
    = (Ok (map (Spec.to_sku "w" "t") (Spec.zero_entry <$> ["Y"; "Z"])), ["Y"; "Z"])
  ∧ Seller.create_prices [Sample.record "X" "abc" "n/a"] ["Y"; "Z"] = Ok []
  ∧ Market.create_prices (H := Sample.interpreter)
      [Sample.record "X" "abc" "n/a"] ["Y"; "Z"] = Ok [].
Proof.
  apply (X4_no_record_in_catalog (H := Sample.interpreter)).
  intros w ->%list_elem_of_singleton. vm_compute.
  intros [[=]|[[=]|[]%elem_of_nil]%elem_of_cons]%elem_of_cons.
Defined.

(** ** Records that share a code *)

Section first_wins.
Context `{Interpreter}.
Implicit Types (w : watch) (wr rest : list watch) (ids : list string)
  (acc : list Seller.Stock).

Lemma first_with_cons_ne w rest offer_id :
  Spec.code w ≠ offer_id →
  Trace.first_with (w :: rest) offer_id = prod_map S id <$> Trace.first_with rest offer_id.
Proof. intros Hne. unfold Trace.first_with. simpl. by rewrite decide_False. Qed.

Lemma seller_loop_first_wins wr acc ids stocks ids' :
  NoDup ids →
  Seller.create_stocks_loop wr acc ids = (Ok stocks, ids') →
  ∃ new, stocks = acc ++ new
    ∧ ∀ e, e ∈ new →
        Seller.stock_offer_id e ∈ ids
        ∧ ∃ i w, Trace.first_with wr (Seller.stock_offer_id e) = Some (i, w)
                 ∧ Spec.mapped_count w = Ok (Seller.stock e).
Proof.
  revert acc ids. induction wr as [|w rest IH]; intros acc ids Hnd.
  { simpl. intros [= <- <-]. exists []. rewrite app_nil_r. split; [done|].
    by intros e ?%elem_of_nil. }
  rewrite seller_loop_cons. case_decide as Hin.
  - destruct (Spec.mapped_count w) as [c|e0] eqn:Hc; [|done].
    destruct (remove_is_Some _ _ Hin) as [ids1 Hrm]. rewrite Hrm. intros Hloop.
    destruct (remove_Some_NoDup _ _ _ Hrm Hnd) as [Hnd1 Hw].
    destruct (IH _ _ Hnd1 Hloop) as (new & -> & Hnew).
    exists (Spec.stock_entry w c :: new). split; [by rewrite <- app_assoc|].
    intros e [->|He]%elem_of_cons.
    + split; [done|]. exists 0, w. split; [|done].
      unfold Trace.first_with. simpl. by rewrite decide_True.
    + destruct (Hnew e He) as (Hin1 & i & w' & Hfirst & Hcount). split.
      { eapply elem_of_sublist; [done|]. by eapply remove_Some_sublist. }
      exists (S i), w'. split; [|done].
      rewrite first_with_cons_ne, Hfirst; [done|].
      intros Heq. apply Hw. by rewrite Heq.
  - intros Hloop. destruct (IH _ _ Hnd Hloop) as (new & -> & Hnew).
    exists new. split; [done|]. intros e He.
    destruct (Hnew e He) as (Hin1 & i & w' & Hfirst & Hcount). split; [done|].
    exists (S i), w'. split; [|done].
    rewrite first_with_cons_ne, Hfirst; [done|].
    intros Heq. apply Hin. by rewrite Heq.
Qed.

End first_wins.

(** X5: records that share a code, on a catalog that repeats no offer id.
    When [create_stocks] returns, no offer id occurs twice in the stock
    list, and the count of each entry is the mapped count of the first
    record that has the entry's code (later records with that code are
    passed over), or 0 when no record has it.  The Yandex variant returns
    the same entries in its own shape. *)
Theorem X5_first_record_wins `{Interpreter}
    (wr : list watch) (ids : list string) (warehouse_id date : string)
    (stocks : list Seller.Stock) (ids' : list string) :
  NoDup ids →
  Seller.create_stocks wr ids = (Ok stocks, ids') →
  NoDup (Seller.stock_offer_id <$> stocks)
  ∧ (∀ e, e ∈ stocks →
       match Trace.first_with wr (Seller.stock_offer_id e) with
       | Some (_, w) => Spec.mapped_count w = Ok (Seller.stock e)
       | None => Seller.stock e = 0%Z
       end)
  ∧ Market.create_stocks wr ids warehouse_id date
    = (Ok (map (Spec.to_sku warehouse_id date) stocks), ids').
Proof.
  intros Hnd Hcall. split_and!; [| |by rewrite market_create_stocks_sim, Hcall].
  - rewrite seller_create_stocks_unfold in Hcall.
    destruct (Seller.create_stocks_loop wr [] ids) as [[matched|e0] ids1] eqn:Hloop;
      [|done]. injection Hcall as <- <-.
    destruct (seller_loop_inv _ _ _ _ _ Hloop) as (_ & new & -> & Hperm & _).
    simpl. by rewrite fmap_app, zero_entry_offer_ids, Hperm.
  - rewrite seller_create_stocks_unfold in Hcall.
    destruct (Seller.create_stocks_loop wr [] ids) as [[matched|e0] ids1] eqn:Hloop;
      [|done]. injection Hcall as <- <-.
    destruct (seller_loop_first_wins _ _ _ _ _ Hnd Hloop) as (new & -> & Hnew).
    destruct (seller_loop_NoDup _ _ _ _ _ Hnd Hloop) as [_ Hleft].
    simpl. intros e [He|He]%elem_of_app.
    + by destruct (Hnew e He) as (_ & i & w & -> & Hcount).
    + apply list_elem_of_fmap in He as (x & -> & Hx). simpl.
      unfold Trace.first_with.
      rewrite (proj2 (list_find_None _ _)); [done|].
      apply Forall_forall. intros w Hw Hcode. apply (Hleft w Hw). by rewrite Hcode.
Qed.

Lemma X5_first_record_wins_witness :
  NoDup (Seller.stock_offer_id <$>
           [ {| Seller.stock_offer_id := "A"; Seller.stock := 5 |};
             {| Seller.stock_offer_id := "B"; Seller.stock := 0 |} ]).
Proof.
  eapply (X5_first_record_wins (H := Sample.interpreter)
            [Sample.record "A" "5" "10.00"; Sample.record "A" "9" "20.00"]
            ["A"; "B"] "w" "t" _ ["B"]).
  - apply (bool_decide_unpack _). vm_compute. reflexivity.
  - vm_compute. reflexivity.
Defined.

(** ** Cells that hold no text *)

Lemma pretty_N_go_not_gt (x : N) (s s' : string) :
  s ≠ String ">" s' → pretty_N_go x s ≠ String ">" s'.
Proof.
  revert s. induction (N.lt_wf_0 x) as [x _ IH]; intros s ?.
  assert (x = 0 ∨ 0 < x)%N as [->|?] by lia.
  - by rewrite pretty_N_go_0.
  - rewrite pretty_N_go_step by done. apply IH.
    { by apply N.div_lt. }
    unfold pretty_N_char. by repeat case_match.
Qed.

Lemma str_int_not_gt10 (z : Z) : str (PInt z) ≠ ">10".
Proof.
  simpl. unfold pretty, pretty_Z. destruct z as [|p|p]; [done| |done].
  unfold pretty, pretty_positive, pretty, pretty_N.
  case_decide; [done|]. by apply pretty_N_go_not_gt.
Qed.

Lemma str_int_one (z : Z) : str (PInt z) = "1" ↔ z = 1%Z.
Proof.
  simpl. split; [|by intros ->].
  intros Hz. by apply (inj (pretty (A := Z))).
Qed.

(** X6: a matched record whose quantity cell holds no text, after any
    records that are not in the catalog.  If the cell is missing, both
    [create_stocks] fail with a [TypeError] and leave the list as it was.
    If the cell holds an integer, the entry's count is that integer, except
    that the integer 1 gives 0, as the text "1" does. *)
Theorem X6_quantity_cell_without_text `{Interpreter}
    (pre : list watch) (w : watch) (rest : list watch) (ids : list string)
    (warehouse_id date : string) :
  (∀ w', w' ∈ pre → Spec.code w' ∉ ids) →
  Spec.code w ∈ ids →
  match get w Количество with
  | PNone =>
      Seller.create_stocks (pre ++ w :: rest) ids = (Raise TypeError, ids)
      ∧ Market.create_stocks (pre ++ w :: rest) ids warehouse_id date
        = (Raise TypeError, ids)
  | PInt z =>
      let c := if decide (z = 1%Z) then 0%Z else z in
      ∃ ids1, remove (Spec.code w) ids = Some ids1
        ∧ Seller.create_stocks (pre ++ w :: rest) ids
          = Spec.emit_then (Spec.stock_entry w c) (Seller.create_stocks rest ids1)
        ∧ Market.create_stocks (pre ++ w :: rest) ids warehouse_id date
          = Spec.emit_then (Spec.to_sku warehouse_id date (Spec.stock_entry w c))
              (Market.create_stocks rest ids1 warehouse_id date)
  | PStr _ => True
  end.
Proof.
  intros Hpre Hin.
  rewrite seller_create_stocks_skip, market_create_stocks_skip by done.
  destruct (get w Количество) as [|s|z] eqn:Hq; [|done|].
  - assert (Spec.mapped_count w = Raise TypeError) as Hc.
    { unfold Spec.mapped_count. by rewrite Hq. }
    split; [by apply seller_create_stocks_raises
           |by apply market_create_stocks_raises].
  - intros c. destruct (remove_is_Some _ _ Hin) as [ids1 Hrm]. exists ids1.
    assert (Spec.mapped_count w = Ok c) as Hc.
    { unfold Spec.mapped_count. rewrite Hq.
      rewrite decide_False by apply str_int_not_gt10.
      unfold c. destruct (decide (z = 1%Z)) as [->|Hz]; [done|].
      rewrite decide_False; [done|]. by rewrite str_int_one. }
    split_and!; [done|by apply seller_create_stocks_matched
                |by apply market_create_stocks_matched].
Qed.

Lemma X6_quantity_cell_without_text_witness :
  Seller.create_stocks (H := Sample.interpreter)
    ([Sample.record "Q" "x" "1.00"] ++ {[ Код := PStr "A" ]} :: []) ["A"; "B"]
  = (Raise TypeError, ["A"; "B"]).
Proof.
  pose proof (X6_quantity_cell_without_text (H := Sample.interpreter)
                [Sample.record "Q" "x" "1.00"] {[ Код := PStr "A" ]} []
                ["A"; "B"] "w" "t") as Hx.
  change (get {[ Код := PStr "A" ]} Количество) with PNone in Hx.
  apply Hx.
  - intros w' ->%list_elem_of_singleton. vm_compute.
    intros [[=]|[[=]|[]%elem_of_nil]%elem_of_cons]%elem_of_cons.
  - vm_compute. left.
Defined.

(** ** How [create_prices] reads the catalog *)

Section prices_catalog.
Context `{Interpreter}.
Implicit Types (w : watch) (wr : list watch) (ids : list string).

Lemma seller_prices_loop_ext wr acc ids1 ids2 :
  (∀ x, x ∈ ids1 ↔ x ∈ ids2) →
  Seller.create_prices_loop wr acc ids1 = Seller.create_prices_loop wr acc ids2.
Proof.
  intros Hids. revert acc. induction wr as [|w wr IH]; intros acc; [done|].
  cbn [Seller.create_prices_loop].
  rewrite (bool_decide_ext _ _ (Hids _)). case_bool_decide; [|apply IH].
  destruct (Seller.price_conversion_cell (get w Цена)); simpl; [apply IH|done].
Qed.

Lemma market_prices_loop_ext wr acc ids1 ids2 :
  (∀ x, x ∈ ids1 ↔ x ∈ ids2) →
  Market.create_prices_loop wr acc ids1 = Market.create_prices_loop wr acc ids2.
Proof.
  intros Hids. revert acc. induction wr as [|w wr IH]; intros acc; [done|].
  cbn [Market.create_prices_loop].
  rewrite (bool_decide_ext _ _ (Hids _)). case_bool_decide; [|apply IH].
  destruct (Market.price_value (get w Цена)); simpl; [apply IH|done].
Qed.

(** The Yandex loop stops with an exception once the price of a matched
    record does not convert. *)
Lemma market_prices_loop_stops wr acc ids w e :
  w ∈ wr → Spec.code w ∈ ids → Market.price_value (get w Цена) = Raise e →
  ∃ e', Market.create_prices_loop wr acc ids = Raise e'.
Proof.
  intros Hw Hin Hp. revert acc.
  induction wr as [|w0 rest IH]; intros acc; [by apply elem_of_nil in Hw|].
  cbn [Market.create_prices_loop]. fold (Spec.code w0).
  destruct (decide (Spec.code w0 ∈ ids)) as [Hin0|Hin0];
    [rewrite bool_decide_eq_true_2 by done
    |rewrite bool_decide_eq_false_2 by done].
  - destruct (Market.price_value (get w0 Цена)) as [v|e0] eqn:Hv; simpl; [|by exists e0].
    apply elem_of_cons in Hw as [->|Hw]; [congruence|by apply IH].
  - apply elem_of_cons in Hw as [->|Hw]; [done|by apply IH].
Qed.

End prices_catalog.

(** X7: [create_prices] reads the catalog only through membership tests:
    two catalogs with the same offer ids, in whatever order and however
    often repeated, give the same result, in both variants. *)
Theorem X7_create_prices_membership_only `{Interpreter}
    (wr : list watch) (ids1 ids2 : list string) :
  (∀ x, x ∈ ids1 ↔ x ∈ ids2) →
  Seller.create_prices wr ids1 = Seller.create_prices wr ids2
  ∧ Market.create_prices wr ids1 = Market.create_prices wr ids2.
Proof.
  intros Hids. split.
  - by apply seller_prices_loop_ext.
  - by apply market_prices_loop_ext.
Qed.

Lemma X7_create_prices_membership_only_witness :
  Seller.create_prices [Sample.record "A" "5" "10.00"] ["A"; "B"; "A"]
  = Seller.create_prices [Sample.record "A" "5" "10.00"] ["B"; "A"]
  ∧ Market.create_prices (H := Sample.interpreter)
      [Sample.record "A" "5" "10.00"] ["A"; "B"; "A"]
    = Market.create_prices (H := Sample.interpreter)
        [Sample.record "A" "5" "10.00"] ["B"; "A"].
Proof.
  apply (X7_create_prices_membership_only (H := Sample.interpreter)).
  intros x. rewrite !elem_of_cons, !elem_of_nil. tauto.
Defined.

(** X8: a record of the catalog whose price cell is missing or holds no
    text makes the Ozon [create_prices] fail with an [AttributeError],
    wherever the record stands in the list, and makes the Yandex
    [create_prices] fail as well. *)
Theorem X8_price_cell_without_text `{Interpreter}
    (wr : list watch) (ids : list string) (w : watch) :
  w ∈ wr → Spec.code w ∈ ids → (∀ s, get w Цена ≠ PStr s) →
  Seller.create_prices wr ids = Raise AttributeError
  ∧ ∃ e, Market.create_prices wr ids = Raise e.
Proof.
  intros Hw Hin Hp. split.
  - pose proof (seller_prices_loop_inv wr [] ids) as Hinv.
    unfold Seller.create_prices.
    destruct (Seller.create_prices_loop wr [] ids) as [prices|e].
    + destruct Hinv as (new & -> & Hnew).
      assert (w ∈ filter (λ w, Spec.code w ∈ ids) wr) as Hwf.
      { by apply list_elem_of_filter. }
      apply list_elem_of_lookup in Hwf as [i Hi].
      destruct (Forall2_lookup_l _ _ _ _ _ Hnew Hi) as (p & _ & s & Hs & _).
      by destruct (Hp s).
    + by destruct Hinv as [-> _].
  - apply (market_prices_loop_stops wr [] ids w AttributeError Hw Hin).
    unfold Market.price_value.
    destruct (get w Цена) as [|s|z]; [done|by destruct (Hp s)|done].
Qed.

Lemma X8_price_cell_without_text_witness :
  Seller.create_prices
    [Sample.record "B" "2" "10.00"; {[ Код := PStr "A"; Количество := PStr "3" ]}]
    ["A"; "B"]
  = Raise AttributeError
  ∧ ∃ e, Market.create_prices (H := Sample.interpreter)
           [Sample.record "B" "2" "10.00"; {[ Код := PStr "A"; Количество := PStr "3" ]}]
           ["A"; "B"] = Raise e.
Proof.
  apply (X8_price_cell_without_text (H := Sample.interpreter) _ _
           {[ Код := PStr "A"; Количество := PStr "3" ]}).
  - right. left.
  - vm_compute. left.
  - intros s. vm_compute. discriminate.
Defined.

(** X9: what [create_stocks] leaves in a catalog list that repeated no
    offer id is of no use to a second pass over the same records:
    [create_prices] on that list returns the empty list, in both variants,
    and [create_stocks] on it gives zero entries only and changes it no
    more. *)
Theorem X9_consumed_catalog `{Interpreter}
    (wr : list watch) (ids : list string)
    (stocks : list Seller.Stock) (ids' : list string) :
  NoDup ids →
  Seller.create_stocks wr ids = (Ok stocks, ids') →
  Seller.create_prices wr ids' = Ok []
  ∧ Market.create_prices wr ids' = Ok []
  ∧ Seller.create_stocks wr ids' = (Ok (Spec.zero_entry <$> ids'), ids').
Proof.
  intros Hnd Hcall. rewrite seller_create_stocks_unfold in Hcall.
  destruct (Seller.create_stocks_loop wr [] ids) as [[matched|e0] ids1] eqn:Hloop;
    [|done]. injection Hcall as <- <-.
  destruct (seller_loop_NoDup _ _ _ _ _ Hnd Hloop) as [_ Hleft].
  split_and!.
  - by apply seller_prices_loop_unmatched.
  - by apply market_prices_loop_unmatched.
  - by apply seller_create_stocks_unmatched.
Qed.

Lemma X9_consumed_catalog_witness :
  Seller.create_prices [Sample.record "X" ">10" "1'000.00 руб."] ["Y"] = Ok []
  ∧ Market.create_prices (H := Sample.interpreter)
      [Sample.record "X" ">10" "1'000.00 руб."] ["Y"] = Ok []
  ∧ Seller.create_stocks (H := Sample.interpreter)
      [Sample.record "X" ">10" "1'000.00 руб."] ["Y"]
    = (Ok (Spec.zero_entry <$> ["Y"]), ["Y"]).
Proof.
  eapply (X9_consumed_catalog (H := Sample.interpreter)
            [Sample.record "X" ">10" "1'000.00 руб."] ["X"; "Y"]).
  - apply (bool_decide_unpack _). vm_compute. reflexivity.
  - vm_compute. reflexivity.
Defined.

(** ** A catalog request that fails, a catalog that never ends *)

Section ozon_catalog_errors.
Implicit Types (w : Seller.world) (s : run Seller.request) (pages : list Seller.Page).

Lemma ozon_loop_raise w fuel client_id seller_token cursor acc s e s' :
  Seller.get_offer_ids_loop w fuel client_id seller_token cursor acc s
    = Some (Raise e, s')
  ↔ ∃ pages,
      List.length pages < fuel
      ∧ Spec.ozon_answers w (clock s) client_id seller_token cursor pages
      ∧ Trace.ozon_no_signal (List.length acc) pages
      ∧ Seller.product_list w (clock s + List.length pages)
          (Trace.ozon_next_cursor cursor pages) client_id seller_token = Raise e
      ∧ s' = Run (clock s + List.length pages + 1)
                 (sent s ++ Spec.ozon_requests client_id seller_token cursor pages
                    ++ [Seller.ProductList (Trace.ozon_next_cursor cursor pages)
                          client_id seller_token])
                 (stdout s).
Proof.
  revert cursor acc s. induction fuel as [|fuel IH]; intros cursor acc s.
  { simpl. split; [done|]. intros (pages & Hlen & _); lia. }
  cbn [Seller.get_offer_ids_loop]. unfold mbind, io_bind, Seller.get_product_list, call.
  destruct (Seller.product_list w (clock s) cursor client_id seller_token) as [p|e0] eqn:Hp.
  - case_bool_decide as Hsig.
    + unfold mret, io_ret. split; [done|].
      intros ([|p' ps] & Hlen & Hans & Hno & Hraise & ->).
      * simpl in Hraise. rewrite Nat.add_0_r in Hraise. congruence.
      * destruct Hans as [Hans _]. rewrite Hans in Hp. injection Hp as ->.
        destruct Hno as [Hno _]. rewrite length_app in Hsig. done.
    + rewrite IH. simpl. rewrite length_app in Hsig |- *. split.
      * intros (ps & Hlen & Hans & Hno & Hraise & ->). exists (p :: ps). simpl.
        split_and!; [lia|done..| |].
        -- rewrite <- Hraise. f_equal. lia.
        -- rewrite <- app_assoc. simpl. f_equal. lia.
      * intros ([|p' ps] & Hlen & Hans & Hno & Hraise & ->).
        { simpl in Hraise. rewrite Nat.add_0_r in Hraise. congruence. }
        destruct Hans as [Hans Hrest]. rewrite Hans in Hp. injection Hp as ->.
        destruct Hno as [_ Hno]. exists ps. simpl in *.
        split_and!; [lia|done..| |].
        -- rewrite <- Hraise. f_equal. lia.
        -- rewrite <- app_assoc. simpl. f_equal. lia.
  - split.
    + intros [= <- <-]. exists []. simpl. rewrite Nat.add_0_r.
      split_and!; [lia|done..|]. f_equal. lia.
    + intros ([|p' ps] & Hlen & Hans & Hno & Hraise & ->).
      * simpl in *. rewrite Nat.add_0_r in Hraise. rewrite Hraise in Hp.
        injection Hp as ->. do 3 f_equal. lia.
      * destruct Hans as [Hans _]. congruence.
Qed.

Lemma ozon_loop_never_ends w client_id seller_token :
  (∀ now cursor, ∃ p,
      Seller.product_list w now cursor client_id seller_token = Ok p
      ∧ (Seller.total p < Z.of_nat (List.length (Seller.items p)))%Z) →
  ∀ fuel cursor acc s,
    Seller.get_offer_ids_loop w fuel client_id seller_token cursor acc s = None.
Proof.
  intros Hw. induction fuel as [|fuel IH]; intros cursor acc s; [done|].
  cbn [Seller.get_offer_ids_loop]. unfold mbind, io_bind, Seller.get_product_list, call.
  destruct (Hw (clock s) cursor) as (p & -> & Hp).
  rewrite bool_decide_eq_false_2; [apply IH|]. rewrite length_app. lia.
Qed.

End ozon_catalog_errors.

Section yandex_catalog_errors.
Implicit Types (w : Market.world) (s : run Market.request) (pages : list Market.Page).

Lemma yandex_loop_raise w fuel campaign_id market_token cursor acc s e s' :
  Market.get_offer_ids_loop w fuel campaign_id market_token cursor acc s
    = Some (Raise e, s')
  ↔ ∃ pages,
      List.length pages < fuel
      ∧ Spec.yandex_answers w (clock s) campaign_id market_token cursor pages
      ∧ Forall (λ p, ¬ Spec.no_next_page p) pages
      ∧ Market.offer_mapping_entries w (clock s + List.length pages)
          (Trace.yandex_next_cursor cursor pages) campaign_id market_token = Raise e
      ∧ s' = Run (clock s + List.length pages + 1)
                 (sent s ++ Spec.yandex_requests campaign_id market_token cursor pages
                    ++ [Market.OfferMappingEntries (Trace.yandex_next_cursor cursor pages)
                          campaign_id market_token])
                 (stdout s).
Proof.
  revert cursor acc s. induction fuel as [|fuel IH]; intros cursor acc s.
  { simpl. split; [done|]. intros (pages & Hlen & _); lia. }
  cbn [Market.get_offer_ids_loop]. unfold mbind, io_bind, Market.get_product_list, call.
  destruct (Market.offer_mapping_entries w (clock s) cursor campaign_id market_token)
    as [p|e0] eqn:Hp.
  - destruct (Market.falsy (Market.nextPageToken p)) eqn:Hsig.
    + apply falsy_no_next_page in Hsig. unfold mret, io_ret. split; [done|].
      intros ([|p' ps] & Hlen & Hans & Hno & Hraise & ->).
      * simpl in Hraise. rewrite Nat.add_0_r in Hraise. congruence.
      * destruct Hans as [Hans _]. rewrite Hans in Hp. injection Hp as ->.
        by apply Forall_cons in Hno as [Hno _].
    + assert (¬ Spec.no_next_page p) as Hnot.
      { rewrite <- falsy_no_next_page. by rewrite Hsig. }
      rewrite IH. simpl. fold (Spec.yandex_cursor p). split.
      * intros (ps & Hlen & Hans & Hno & Hraise & ->). exists (p :: ps). simpl.
        split_and!; [lia|done|done|by constructor| |].
        -- rewrite <- Hraise. f_equal. lia.
        -- rewrite <- app_assoc. simpl. f_equal. lia.
      * intros ([|p' ps] & Hlen & Hans & Hno & Hraise & ->).
        { simpl in Hraise. rewrite Nat.add_0_r in Hraise. congruence. }
        destruct Hans as [Hans Hrest]. rewrite Hans in Hp. injection Hp as ->.
        apply Forall_cons in Hno as [_ Hno]. exists ps. simpl in *.
        split_and!; [lia|done..| |].
        -- rewrite <- Hraise. f_equal. lia.
        -- rewrite <- app_assoc. simpl. f_equal. lia.
  - split.
    + intros [= <- <-]. exists []. simpl. rewrite Nat.add_0_r.
      split_and!; [lia|done..|]. f_equal. lia.
    + intros ([|p' ps] & Hlen & Hans & Hno & Hraise & ->).
      * simpl in *. rewrite Nat.add_0_r in Hraise. rewrite Hraise in Hp.
        injection Hp as ->. do 3 f_equal. lia.
      * destruct Hans as [Hans _]. congruence.
Qed.

Lemma yandex_loop_never_ends w campaign_id market_token :
  (∀ now cursor, ∃ p,
      Market.offer_mapping_entries w now cursor campaign_id market_token = Ok p
      ∧ ¬ Spec.no_next_page p) →
  ∀ fuel cursor acc s,
    Market.get_offer_ids_loop w fuel campaign_id market_token cursor acc s = None.
Proof.
  intros Hw. induction fuel as [|fuel IH]; intros cursor acc s; [done|].
  cbn [Market.get_offer_ids_loop]. unfold mbind, io_bind, Market.get_product_list, call.
  destruct (Hw (clock s) cursor) as (p & -> & Hp).
  destruct (Market.falsy (Market.nextPageToken p)) eqn:Hsig; [|apply IH].
  by apply falsy_no_next_page in Hsig.
Qed.

End yandex_catalog_errors.

Lemma io_bind_ret_raise {R A B} (m : io R A) (f : A → B) (s s' : run R) (e : exn) :
  (a ← m; mret (f a)) s = Some (Raise e, s') ↔ m s = Some (Raise e, s').
Proof.
  unfold mbind, io_bind, mret, io_ret.
  destruct (m s) as [[[a|e0] s1]|]; split; congruence.
Qed.

Lemma io_bind_ret_none {R A B} (m : io R A) (f : A → B) (s : run R) :
  (a ← m; mret (f a)) s = None ↔ m s = None.
Proof.
  unfold mbind, io_bind, mret, io_ret.
  destruct (m s) as [[[a|e0] s1]|]; split; congruence.
Qed.

(** X10: a failing catalog request.  [get_offer_ids] raises [e] exactly
    when the world answers a run of pages none of which carries the
    marketplace's signal and then answers the next request, made with the
    cursor of the last page, by raising [e]; the pages accumulated so far
    are dropped, and no further request is made. *)
Theorem X10_get_offer_ids_raises :
  (∀ (w : Seller.world) (fuel : nat) (client_id seller_token : string)
     (s s' : run Seller.request) (e : exn),
     Seller.get_offer_ids w fuel client_id seller_token s = Some (Raise e, s')
     ↔ ∃ pages,
         List.length pages < fuel
         ∧ Spec.ozon_answers w (clock s) client_id seller_token "" pages
         ∧ Trace.ozon_no_signal 0 pages
         ∧ Seller.product_list w (clock s + List.length pages)
             (Trace.ozon_next_cursor "" pages) client_id seller_token = Raise e
         ∧ s' = Run (clock s + List.length pages + 1)
                    (sent s ++ Spec.ozon_requests client_id seller_token "" pages
                       ++ [Seller.ProductList (Trace.ozon_next_cursor "" pages)
                             client_id seller_token])
                    (stdout s))
  ∧ (∀ (w : Market.world) (fuel : nat) (campaign_id market_token : string)
       (s s' : run Market.request) (e : exn),
       Market.get_offer_ids w fuel campaign_id market_token s = Some (Raise e, s')
       ↔ ∃ pages,
           List.length pages < fuel
           ∧ Spec.yandex_answers w (clock s) campaign_id market_token "" pages
           ∧ Forall (λ p, ¬ Spec.no_next_page p) pages
           ∧ Market.offer_mapping_entries w (clock s + List.length pages)
               (Trace.yandex_next_cursor "" pages) campaign_id market_token = Raise e
           ∧ s' = Run (clock s + List.length pages + 1)
                      (sent s ++ Spec.yandex_requests campaign_id market_token "" pages
                         ++ [Market.OfferMappingEntries
                               (Trace.yandex_next_cursor "" pages)
                               campaign_id market_token])
                      (stdout s)).
Proof.
  split.
  - intros. unfold Seller.get_offer_ids. rewrite io_bind_ret_raise.
    apply (ozon_loop_raise w fuel client_id seller_token "" []).
  - intros. unfold Market.get_offer_ids. rewrite io_bind_ret_raise.
    apply (yandex_loop_raise w fuel campaign_id market_token "" []).
Qed.

(** X11: catalogs that never end.  If the Ozon server answers every request
    with a page whose reported total is below the number of items on that
    page, the accumulated count never equals a reported total; if the
    Yandex server answers every request with a page that carries a
    non-empty next-page token, the token never runs out.  In both cases
    [get_offer_ids] does not end, whatever the number of iterations
    allowed. *)
Theorem X11_get_offer_ids_never_ends :
  (∀ (w : Seller.world) (client_id seller_token : string),
     (∀ now cursor, ∃ p,
         Seller.product_list w now cursor client_id seller_token = Ok p
         ∧ (Seller.total p < Z.of_nat (List.length (Seller.items p)))%Z) →
     ∀ fuel s, Seller.get_offer_ids w fuel client_id seller_token s = None)
  ∧ (∀ (w : Market.world) (campaign_id market_token : string),
       (∀ now cursor, ∃ p,
           Market.offer_mapping_entries w now cursor campaign_id market_token = Ok p
           ∧ ¬ Spec.no_next_page p) →
       ∀ fuel s, Market.get_offer_ids w fuel campaign_id market_token s = None).
Proof.
  split.
  - intros w client_id seller_token Hw fuel s.
    unfold Seller.get_offer_ids. rewrite io_bind_ret_none.
    by apply ozon_loop_never_ends.
  - intros w campaign_id market_token Hw fuel s.
    unfold Market.get_offer_ids. rewrite io_bind_ret_none.
    by apply yandex_loop_never_ends.
Qed.

Lemma X11_get_offer_ids_never_ends_witness :
  Seller.get_offer_ids Sample.ozon_world_short_total 3 "id" "token" (Run 0 [] []) = None
  ∧ Market.get_offer_ids Sample.yandex_world_endless 3 "id" "token" (Run 0 [] []) = None.
Proof.
  destruct X11_get_offer_ids_never_ends as [Hozon Hyandex]. split.
  - apply Hozon. intros now cursor. eexists. split; [reflexivity|]. simpl. lia.
  - apply Hyandex. intros now cursor. eexists. split; [reflexivity|].
    by intros [[=]|[=]].
Defined.

(** ** What a computation sends: the rules *)

Section sends.
Context {R : Type}.
Implicit Types (P : R → Prop) (s : run R).

Lemma footprint_refl P s : Trace.footprint P s s.
Proof.
  split; [done|]. exists []. rewrite app_nil_r. simpl. split_and!; [done|lia|done].
Qed.

Lemma footprint_trans P s1 s2 s3 :
  Trace.footprint P s1 s2 → Trace.footprint P s2 s3 → Trace.footprint P s1 s3.
Proof.
  intros (Hout1 & l1 & Hs1 & Hc1 & Hl1) (Hout2 & l2 & Hs2 & Hc2 & Hl2).
  split; [congruence|]. exists (l1 ++ l2). split_and!.
  - by rewrite Hs2, Hs1, app_assoc.
  - rewrite length_app. lia.
  - by apply Forall_app.
Qed.

Lemma sends_ret {A} P (Q : A → Prop) (a : A) : Q a → Trace.sends P Q (mret a).
Proof.
  intros Ha s r s' [= <- <-]. split; [apply footprint_refl|]. by intros ? [= <-].
Qed.

Lemma sends_raise {A} P (Q : A → Prop) (e : exn) : Trace.sends P Q (raise e).
Proof. intros s r s' [= <- <-]. split; [apply footprint_refl|done]. Qed.

Lemma sends_lift {A} P (r : res A) : Trace.sends P (λ a, r = Ok a) (lift r).
Proof. destruct r as [a|e]; [by apply sends_ret|apply sends_raise]. Qed.

Lemma sends_call {A} P (req : R) (answer : nat → res A) :
  P req → Trace.sends P (λ _, True) (call req answer).
Proof.
  intros Hreq s r s' [= <- <-]. split; [|done]. split; [done|].
  exists [req]. simpl. split_and!; [done|lia|by constructor].
Qed.

Lemma sends_bind {A B} P (Q : A → Prop) (Q' : B → Prop) (m : io R A) (k : A → io R B) :
  Trace.sends P Q m → (∀ a, Q a → Trace.sends P Q' (k a)) →
  Trace.sends P Q' (m ≫= k).
Proof.
  intros Hm Hk s r s'. unfold mbind, io_bind.
  destruct (m s) as [[[a|e] s1]|] eqn:Hms; [| |done].
  - destruct (Hm _ _ _ Hms) as [Hf Ha]. intros Hks.
    destruct (Hk a (Ha a eq_refl) _ _ _ Hks) as [Hf' Hb].
    split; [by eapply footprint_trans|done].
  - intros [= <- <-]. destruct (Hm _ _ _ Hms) as [Hf _]. done.
Qed.

Lemma sends_weaken {A} P (Q Q' : A → Prop) (m : io R A) :
  Trace.sends P Q m → (∀ a, Q a → Q' a) → Trace.sends P Q' m.
Proof.
  intros Hm HQ s r s' Hms. destruct (Hm _ _ _ Hms) as [Hf Ha].
  split; [done|]. intros a ->. by apply HQ, Ha.
Qed.

Lemma sends_for_each {A} P (xs : list A) (body : A → io R unit) :
  (∀ x, x ∈ xs → Trace.sends P (λ _, True) (body x)) →
  Trace.sends P (λ _, True) (for_each xs body).
Proof.
  induction xs as [|x xs IH]; intros Hbody; simpl; [by apply sends_ret|].
  eapply sends_bind; [apply Hbody; left|]. intros _ _.
  apply IH. intros y ?. apply Hbody. by right.
Qed.

(** [try] with the handlers of either [main]: the run returns normally and
    at most the handler's line is printed. *)
Lemma try_except_outcome P (body : io R unit) (handler : exn → io R unit)
    (s : run R) (r : res unit) (s' : run R) :
  Trace.sends P (λ _, True) body →
  (∀ e, handler e = print (Trace.handler_line e)) →
  try_except body handler s = Some (r, s') →
  r = Ok tt
  ∧ (∃ l, sent s' = sent s ++ l ∧ Forall P l)
  ∧ (stdout s' = stdout s ∨ ∃ e, stdout s' = stdout s ++ [Trace.handler_line e]).
Proof.
  intros Hbody Hhandler. unfold try_except.
  destruct (body s) as [[[[]|e] s1]|] eqn:Hb; [| |done].
  - intros [= <- <-]. destruct (Hbody _ _ _ Hb) as [(Hout & l & Hl & _ & HP) _].
    split_and!; [done|by exists l|by left].
  - rewrite Hhandler. intros [= <- <-]. simpl.
    destruct (Hbody _ _ _ Hb) as [(Hout & l & Hl & _ & HP) _].
    split_and!; [done|by exists l|right; exists e; by rewrite Hout].
Qed.

End sends.

Lemma seller_handler_line e : Seller.handler e = print (Trace.handler_line e).
Proof. by destruct e. Qed.

Lemma market_handler_line e : Market.handler e = print (Trace.handler_line e).
Proof. by destruct e. Qed.

Lemma ozon_loop_sends P w fuel client_id seller_token cursor acc :
  (∀ last_id, P (Seller.ProductList last_id client_id seller_token)) →
  Trace.sends P (λ _, True)
    (Seller.get_offer_ids_loop w fuel client_id seller_token cursor acc).
Proof.
  intros HP. revert cursor acc. induction fuel as [|fuel IH]; intros cursor acc; [done|].
  cbn [Seller.get_offer_ids_loop].
  eapply sends_bind; [by apply sends_call|]. intros p _. simpl.
  case_bool_decide; [by apply sends_ret|apply IH].
Qed.

Lemma yandex_loop_sends P w fuel campaign_id market_token cursor acc :
  (∀ page, P (Market.OfferMappingEntries page campaign_id market_token)) →
  Trace.sends P (λ _, True)
    (Market.get_offer_ids_loop w fuel campaign_id market_token cursor acc).
Proof.
  intros HP. revert cursor acc. induction fuel as [|fuel IH]; intros cursor acc; [done|].
  cbn [Market.get_offer_ids_loop].
  eapply sends_bind; [by apply sends_call|]. intros p _. simpl.
  destruct (Market.falsy (Market.nextPageToken p)); [by apply sends_ret|apply IH].
Qed.

Lemma ozon_get_offer_ids_sends P w fuel client_id seller_token :
  (∀ last_id, P (Seller.ProductList last_id client_id seller_token)) →
  Trace.sends P (λ _, True) (Seller.get_offer_ids w fuel client_id seller_token).
Proof.
  intros HP. unfold Seller.get_offer_ids.
  eapply sends_bind; [by apply ozon_loop_sends|]. intros pl _. by apply sends_ret.
Qed.

Lemma yandex_get_offer_ids_sends P w fuel campaign_id market_token :
  (∀ page, P (Market.OfferMappingEntries page campaign_id market_token)) →
  Trace.sends P (λ _, True) (Market.get_offer_ids w fuel campaign_id market_token).
Proof.
  intros HP. unfold Market.get_offer_ids.
  eapply sends_bind; [by apply yandex_loop_sends|]. intros pl _. by apply sends_ret.
Qed.

(** ** The entry points: what they send and print *)

Lemma seller_env_bind {A} (w : Seller.world) (name : string)
    (k : string → io Seller.request A) (s : run Seller.request) :
  (Seller.env_str w name ≫= k) s
  = match Seller.environ w name with
    | Some v => k v s
    | None => Some (Raise EnvError, s)
    end.
Proof. unfold Seller.env_str. by destruct (Seller.environ w name). Qed.

Lemma market_env_bind {A} (w : Market.world) (name : string)
    (k : string → io Market.request A) (s : run Market.request) :
  (Market.env_str w name ≫= k) s
  = match Market.environ w name with
    | Some v => k v s
    | None => Some (Raise EnvError, s)
    end.
Proof. unfold Market.env_str. by destruct (Market.environ w name). Qed.

Lemma call_bind {R A B} (req : R) (answer : nat → res A) (k : A → io R B) (s : run R) :
  (call req answer ≫= k) s
  = match answer (clock s) with
    | Ok a => k a (Run (S (clock s)) (sent s ++ [req]) (stdout s))
    | Raise e => Some (Raise e, Run (S (clock s)) (sent s ++ [req]) (stdout s))
    end.
Proof. unfold mbind, io_bind, call. by destruct (answer (clock s)). Qed.

Section seller_main_sends.
Context `{Interpreter}.

(** What runs inside the [try] statement of [seller.main]. *)
Lemma seller_main_try_sends (P : Seller.request → Prop) (w : Seller.world) (fuel : nat)
    (client_id seller_token : string) (s : run Seller.request)
    (r : res unit) (s' : run Seller.request) :
  Seller.environ w "SELLER_TOKEN" = Some seller_token →
  Seller.environ w "CLIENT_ID" = Some client_id →
  (∀ req, ¬ Trace.ozon_price_request req → P req) →
  (∀ prices, P (Seller.ImportPrices prices client_id seller_token))
  ∨ (∀ s0 ids s1,
       Seller.get_offer_ids w fuel client_id seller_token s0 = Some (Ok ids, s1) →
       NoDup ids) →
  Seller.main w fuel s = Some (r, s') →
  r = Ok tt
  ∧ (∃ l, sent s' = sent s ++ l ∧ Forall P l)
  ∧ (stdout s' = stdout s ∨ ∃ e, stdout s' = stdout s ++ [Trace.handler_line e]).
Proof.
  intros Ht Hc HP Hprice. unfold Seller.main.
  rewrite seller_env_bind, Ht, seller_env_bind, Hc.
  apply try_except_outcome; [|apply seller_handler_line].
  eapply sends_bind with
    (Q := λ ids, (∀ prices, P (Seller.ImportPrices prices client_id seller_token))
                 ∨ NoDup ids).
  { intros s0 r0 s1 Hget. split.
    - eapply ozon_get_offer_ids_sends; [|done]. intros. apply HP. simpl. tauto.
    - intros ids ->. destruct Hprice as [?|Hnd]; [by left|right; by eapply Hnd]. }
  intros ids Hids.
  eapply sends_bind; [apply sends_call, HP; simpl; tauto|]. intros wr _.
  destruct (Seller.create_stocks wr ids) as [rs ids'] eqn:Hcs.
  eapply sends_bind; [apply sends_lift|]. intros stocks ->.
  eapply sends_bind; [apply sends_lift|]. intros batches _.
  eapply sends_bind.
  { apply sends_for_each. intros b _. apply sends_call, HP. simpl. tauto. }
  intros _ _.
  eapply sends_bind; [apply sends_lift|]. intros prices Hprices.
  eapply sends_bind; [apply sends_lift|]. intros pbatches Hdiv.
  destruct Hids as [Hall|Hnd].
  { apply sends_for_each. intros b _. apply sends_call. apply Hall. }
  rewrite seller_create_stocks_unfold in Hcs.
  destruct (Seller.create_stocks_loop wr [] ids) as [[matched|e0] ids1] eqn:Hloop;
    [|done]. injection Hcs as _ <-.
  destruct (seller_loop_NoDup _ _ _ _ _ Hnd Hloop) as [_ Hleft].
  unfold Seller.create_prices in Hprices.
  rewrite (seller_prices_loop_unmatched wr [] ids1 Hleft) in Hprices.
  injection Hprices as <-. injection Hdiv as <-. by apply sends_ret.
Qed.

End seller_main_sends.

(** X12: [seller.main] never uploads a price when the marketplace lists no
    offer id twice.  [create_prices] is given the list [create_stocks] has
    taken every matched id out of, so its price list is empty whatever the
    spreadsheet holds: every run that ends has sent catalog, download and
    stock requests only. *)
Theorem X12_seller_main_sends_no_price `{Interpreter}
    (w : Seller.world) (fuel : nat) (client_id seller_token : string)
    (s : run Seller.request) (r : res unit) (s' : run Seller.request) :
  Seller.environ w "SELLER_TOKEN" = Some seller_token →
  Seller.environ w "CLIENT_ID" = Some client_id →
  (∀ s0 ids s1,
     Seller.get_offer_ids w fuel client_id seller_token s0 = Some (Ok ids, s1) →
     NoDup ids) →
  Seller.main w fuel s = Some (r, s') →
  ∃ l, sent s' = sent s ++ l ∧ Forall (λ req, ¬ Trace.ozon_price_request req) l.
Proof.
  intros Ht Hc Hnd Hmain.
  destruct (seller_main_try_sends (λ req, ¬ Trace.ozon_price_request req)
              w fuel client_id seller_token s r s' Ht Hc) as (_ & Hsent & _);
    [done|by right|done|done].
Qed.

Lemma X12_seller_main_sends_no_price_witness :
  ∃ l, [ Seller.ProductList "" "secret" "secret";
         Seller.Ostatki;
         Seller.ImportStocks
           [ {| Seller.stock_offer_id := "X"; Seller.stock := 100 |};
             {| Seller.stock_offer_id := "Y"; Seller.stock := 0 |} ]
           "secret" "secret" ] = [] ++ l
       ∧ Forall (λ req, ¬ Trace.ozon_price_request req) l.
Proof.
  apply (X12_seller_main_sends_no_price (H := Sample.interpreter)
           (Sample.ozon_world ["X"; "Y"] [Sample.record "X" ">10" "1'000.00 руб."])
           1 "secret" "secret" (Run 0 [] []) (Ok tt)
           (Run 3 [ Seller.ProductList "" "secret" "secret";
                    Seller.Ostatki;
                    Seller.ImportStocks
                      [ {| Seller.stock_offer_id := "X"; Seller.stock := 100 |};
                        {| Seller.stock_offer_id := "Y"; Seller.stock := 0 |} ]
                      "secret" "secret" ] [])).
  - reflexivity.
  - reflexivity.
  - intros s0 ids s1 Hget. cbv in Hget. injection Hget as <- _.
    apply (bool_decide_unpack _). vm_compute. reflexivity.
  - vm_compute. reflexivity.
Defined.

Section market_main_sends.
Context `{Interpreter}.

(** The three ways a run of [market.main] ends: a variable is missing and
    nothing was done; the download raised and nothing handled it; or the
    download returned and the [try] statement handled whatever followed. *)
Lemma market_main_outcome (P : Market.request → Prop) (w : Market.world) (fuel : nat)
    (s : run Market.request) (r : res unit) (s' : run Market.request) :
  (∀ req, ¬ Trace.yandex_price_request req → P req) →
  Market.main w fuel s = Some (r, s') →
  (∃ l, sent s' = sent s ++ l ∧ Forall P l)
  ∧ ((r = Raise EnvError ∧ s' = s
      ∧ ∃ name, name ∈ Trace.market_variables ∧ Market.environ w name = None)
     ∨ (∃ e, r = Raise e ∧ Market.ostatki w (clock s) = Raise e
             ∧ s' = Run (S (clock s)) (sent s ++ [Market.Ostatki]) (stdout s))
     ∨ (r = Ok tt ∧ (∃ records, Market.ostatki w (clock s) = Ok records)
        ∧ (stdout s' = stdout s
           ∨ ∃ e, stdout s' = stdout s ++ [Trace.handler_line e]))).
Proof.
  intros HP. unfold Market.main.
  assert (∀ name, name ∈ Trace.market_variables → Market.environ w name = None →
          Some (Raise EnvError, s) = Some (r, s') →
          (∃ l, sent s' = sent s ++ l ∧ Forall P l)
          ∧ ((r = Raise EnvError ∧ s' = s
              ∧ ∃ name, name ∈ Trace.market_variables ∧ Market.environ w name = None)
             ∨ (∃ e, r = Raise e ∧ Market.ostatki w (clock s) = Raise e
                     ∧ s' = Run (S (clock s)) (sent s ++ [Market.Ostatki]) (stdout s))
             ∨ (r = Ok tt ∧ (∃ records, Market.ostatki w (clock s) = Ok records)
                ∧ (stdout s' = stdout s
                   ∨ ∃ e, stdout s' = stdout s ++ [Trace.handler_line e])))) as Hmissing.
  { intros name Hname Hnone [= <- <-]. split.
    - exists []. by rewrite app_nil_r.
    - left. split_and!; [done..|]. by exists name. }
  rewrite market_env_bind.
  destruct (Market.environ w "MARKET_TOKEN") as [market_token|] eqn:H1;
    [|apply (Hmissing "MARKET_TOKEN"); [repeat first [by left|right]|done]].
  rewrite market_env_bind.
  destruct (Market.environ w "FBS_ID") as [campaign_fbs_id|] eqn:H2;
    [|apply (Hmissing "FBS_ID"); [repeat first [by left|right]|done]].
  rewrite market_env_bind.
  destruct (Market.environ w "DBS_ID") as [campaign_dbs_id|] eqn:H3;
    [|apply (Hmissing "DBS_ID"); [repeat first [by left|right]|done]].
  rewrite market_env_bind.
  destruct (Market.environ w "WAREHOUSE_FBS_ID") as [warehouse_fbs_id|] eqn:H4;
    [|apply (Hmissing "WAREHOUSE_FBS_ID"); [repeat first [by left|right]|done]].
  rewrite market_env_bind.
  destruct (Market.environ w "WAREHOUSE_DBS_ID") as [warehouse_dbs_id|] eqn:H5;
    [|apply (Hmissing "WAREHOUSE_DBS_ID"); [repeat first [by left|right]|done]].
  clear Hmissing. unfold Market.download_stock. rewrite call_bind.
  destruct (Market.ostatki w (clock s)) as [watch_remnants|e] eqn:Hdown.
  2: { intros [= <- <-]. split.
       - exists [Market.Ostatki]. split; [done|]. constructor; [|done].
         apply HP. simpl. tauto.
       - right. left. by exists e. }
  intros Htry.
  apply (try_except_outcome P) in Htry as (-> & (l & Hl & HPl) & Hout);
    [|clear Htry|apply market_handler_line].
  { simpl in Hl, Hout. split.
    - exists (Market.Ostatki :: l). split; [by rewrite Hl, <- app_assoc|].
      constructor; [|done]. apply HP. simpl. tauto.
    - right. right. split_and!; [done|by exists watch_remnants|done]. }
  assert (∀ campaign_id warehouse_id (k : io Market.request unit),
            Trace.sends P (λ _, True) k →
            Trace.sends P (λ _, True)
              (offer_ids ← Market.get_offer_ids w fuel campaign_id market_token;
               date ← Market.now w;
               stocks ← lift (Market.create_stocks watch_remnants offer_ids
                                warehouse_id date).1;
               batches ← lift (Seller.divide stocks 2000);
               for_each batches
                 (λ some_stock, Market.update_stocks w some_stock campaign_id market_token);;
               k)) as Hstage.
  { intros campaign_id warehouse_id k Hk.
    eapply sends_bind.
    { apply yandex_get_offer_ids_sends. intros. apply HP. simpl. tauto. }
    intros offer_ids _. eapply sends_bind with (Q := λ _, True).
    { intros s0 r0 s1 [= <- <-]. split; [apply footprint_refl|done]. }
    intros date _.
    eapply sends_bind; [apply sends_lift|]. intros stocks _.
    eapply sends_bind; [apply sends_lift|]. intros batches _.
    eapply sends_bind; [|intros _ _; apply Hk].
    apply sends_for_each. intros b _. apply sends_call, HP. simpl. tauto. }
  apply Hstage. apply Hstage. by apply sends_ret.
Qed.

End market_main_sends.

(** X14: [market.main] never uploads a price.  It calls the coroutine
    function [upload_prices] without awaiting the coroutine, whose body
    therefore does not run: whatever the world answers, every run that ends
    has sent download, catalog and stock requests only. *)
Theorem X14_market_main_sends_no_price `{Interpreter}
    (w : Market.world) (fuel : nat)
    (s : run Market.request) (r : res unit) (s' : run Market.request) :
  Market.main w fuel s = Some (r, s') →
  ∃ l, sent s' = sent s ++ l ∧ Forall (λ req, ¬ Trace.yandex_price_request req) l.
Proof.
  intros Hmain.
  by destruct (market_main_outcome (λ req, ¬ Trace.yandex_price_request req)
                 w fuel s r s') as [Hsent _].
Qed.

Lemma X14_market_main_sends_no_price_witness :
  ∃ l, sent (Run 5 [ Market.Ostatki;
                     Market.OfferMappingEntries "" "secret" "secret";
                     Market.PutStocks
                       [Spec.to_sku "secret" "2024-01-01T00:00:00Z"
                          {| Seller.stock_offer_id := "X"; Seller.stock := 100 |}]
                       "secret" "secret";
                     Market.OfferMappingEntries "" "secret" "secret";
                     Market.PutStocks
                       [Spec.to_sku "secret" "2024-01-01T00:00:00Z"
                          {| Seller.stock_offer_id := "X"; Seller.stock := 100 |}]
                       "secret" "secret" ] [])
       = sent (Run 0 [] []) ++ l
       ∧ Forall (λ req, ¬ Trace.yandex_price_request req) l.
Proof.
  apply (X14_market_main_sends_no_price (H := Sample.interpreter)
           (Sample.yandex_world [Sample.record "X" ">10" "1'000.00 руб."]) 1
           (Run 0 [] []) (Ok tt)).
  vm_compute. reflexivity.
Defined.

(** X16: a variable that is not set.  Reading the variables comes before
    the [try] statement in both scripts: if one of them is missing, [main]
    raises [EnvError] with no request sent and nothing printed, and the
    process ends with status 1. *)
Theorem X16_missing_variable `{Interpreter} :
  (∀ (w : Seller.world) (fuel : nat) (s : run Seller.request) (name : string),
     name ∈ ["SELLER_TOKEN"; "CLIENT_ID"] → Seller.environ w name = None →
     Seller.main w fuel s = Some (Raise EnvError, s)
     ∧ exit_status (Seller.main w fuel s) = Some 1%Z)
  ∧ (∀ (w : Market.world) (fuel : nat) (s : run Market.request) (name : string),
       name ∈ Trace.market_variables → Market.environ w name = None →
       Market.main w fuel s = Some (Raise EnvError, s)
       ∧ exit_status (Market.main w fuel s) = Some 1%Z).
Proof.
  split.
  - intros w fuel s name Hname Hnone.
    assert (Seller.main w fuel s = Some (Raise EnvError, s)) as Hmain.
    { unfold Seller.main. rewrite seller_env_bind.
      destruct (Seller.environ w "SELLER_TOKEN") eqn:H1; [|done].
      rewrite seller_env_bind.
      destruct (Seller.environ w "CLIENT_ID") eqn:H2; [|done].
      repeat (apply elem_of_cons in Hname as [->|Hname]; [congruence|]).
      by apply elem_of_nil in Hname. }
    by rewrite Hmain.
  - intros w fuel s name Hname Hnone.
    assert (Market.main w fuel s = Some (Raise EnvError, s)) as Hmain.
    { unfold Market.main. rewrite market_env_bind.
      destruct (Market.environ w "MARKET_TOKEN") eqn:H1; [|done].
      rewrite market_env_bind.
      destruct (Market.environ w "FBS_ID") eqn:H2; [|done].
      rewrite market_env_bind.
      destruct (Market.environ w "DBS_ID") eqn:H3; [|done].
      rewrite market_env_bind.
      destruct (Market.environ w "WAREHOUSE_FBS_ID") eqn:H4; [|done].
      rewrite market_env_bind.
      destruct (Market.environ w "WAREHOUSE_DBS_ID") eqn:H5; [|done].
      unfold Trace.market_variables in Hname.
      repeat (apply elem_of_cons in Hname as [->|Hname]; [congruence|]).
      by apply elem_of_nil in Hname. }
    by rewrite Hmain.
Qed.

Lemma X16_missing_variable_witness :
  Seller.main (H := Sample.interpreter) Sample.ozon_world_no_token 1 (Run 0 [] [])
  = Some (Raise EnvError, Run 0 [] [])
  ∧ exit_status (Seller.main (H := Sample.interpreter)
                   Sample.ozon_world_no_token 1 (Run 0 [] [])) = Some 1%Z.
Proof.
  destruct (X16_missing_variable (H := Sample.interpreter)) as [Hseller _].
  apply (Hseller Sample.ozon_world_no_token 1 (Run 0 [] []) "SELLER_TOKEN").
  - left.
  - reflexivity.
Defined.

(** ** Uploading in batches *)

Section batches.
Context {R X : Type}.
Implicit Types (req : X → R) (answer : X → nat → res unit) (batches : list X)
  (s : run R).

(** One request per batch, in order, when every request is answered. *)
Lemma for_each_call_ok req answer batches s :
  (∀ i b, batches !! i = Some b → answer b (clock s + i) = Ok tt) →
  for_each batches (λ b, call (req b) (answer b)) s
  = Some (Ok tt, Run (clock s + List.length batches)
                     (sent s ++ map req batches) (stdout s)).
Proof.
  revert s. induction batches as [|b bs IH]; intros s Hok.
  { simpl. unfold mret, io_ret. rewrite app_nil_r, Nat.add_0_r. by destruct s. }
  cbn [for_each]. rewrite call_bind.
  specialize (Hok 0 b eq_refl) as Hb. rewrite Nat.add_0_r in Hb. rewrite Hb.
  rewrite IH.
  - simpl. rewrite <- app_assoc. do 3 f_equal. lia.
  - intros i b' Hi. simpl. rewrite <- (Hok (S i) b' Hi). f_equal. lia.
Qed.

(** The first request that raises ends the loop: the batches after it are
    not sent. *)
Lemma for_each_call_raises req answer batches s k b e :
  batches !! k = Some b →
  (∀ i b', i < k → batches !! i = Some b' → answer b' (clock s + i) = Ok tt) →
  answer b (clock s + k) = Raise e →
  for_each batches (λ b, call (req b) (answer b)) s
  = Some (Raise e, Run (clock s + S k)
                       (sent s ++ map req (take (S k) batches)) (stdout s)).
Proof.
  revert s k. induction batches as [|b0 bs IH]; intros s k Hk Hok Hraise; [done|].
  cbn [for_each]. rewrite call_bind. destruct k as [|k].
  - injection Hk as ->. rewrite Nat.add_0_r in Hraise. rewrite Hraise.
    simpl. do 3 f_equal. lia.
  - specialize (Hok 0 b0 ltac:(lia) eq_refl) as Hb. rewrite Nat.add_0_r in Hb.
    rewrite Hb. rewrite (IH _ k); [| done | |].
    + simpl. rewrite <- app_assoc. do 3 f_equal. lia.
    + intros i b' Hi Hb'. simpl. rewrite <- (Hok (S i) b' ltac:(lia) Hb'). f_equal. lia.
    + simpl. rewrite <- Hraise. f_equal. lia.
Qed.

End batches.

Lemma divide_positive {A} (lst : list A) (n : Z) :
  (1 ≤ n)%Z → ∃ chunks, Seller.divide lst n = Ok chunks ∧ List.concat chunks = lst.
Proof.
  intros Hn. unfold Seller.divide, range.
  destruct (Z.eqb_spec n 0) as [?|_]; [lia|].
  destruct (Z.ltb_spec n 0) as [?|_]; [lia|].
  eexists. split; [reflexivity|].
  rewrite concat_slices, drop_0. apply take_ge, range_covers. lia.
Qed.

Lemma io_bind_ok {R A B} (m : io R A) (k : A → io R B) (s s1 : run R) (a : A) :
  m s = Some (Ok a, s1) → (m ≫= k) s = k a s1.
Proof. intros Hm. unfold mbind, io_bind. by rewrite Hm. Qed.

Lemma io_bind_raise {R A B} (m : io R A) (k : A → io R B) (s s1 : run R) (e : exn) :
  m s = Some (Raise e, s1) → (m ≫= k) s = Some (Raise e, s1).
Proof. intros Hm. unfold mbind, io_bind. by rewrite Hm. Qed.

Lemma io_ret_bind {R A B} (a : A) (k : A → io R B) (s : run R) :
  (mret a ≫= k) s = k a s.
Proof. reflexivity. Qed.

(** X17: the coroutine of [seller.upload_prices], once the catalog is
    fetched and the price list built.  The price list is cut into batches
    that put together give the list back; when every upload is answered,
    one request per batch is sent, in order, and the price list is
    returned; when the upload of some batch raises, the batches up to it
    were sent, the ones after it are not, and the exception is the
    result. *)
Theorem X17_upload_prices_batches
    (w : Seller.world) (fuel : nat) (wr : list watch) (client_id seller_token : string)
    (s s1 : run Seller.request) (ids : list string) (prices : list Seller.Price) :
  Seller.get_offer_ids w fuel client_id seller_token s = Some (Ok ids, s1) →
  Seller.create_prices wr ids = Ok prices →
  ∃ batches,
    Seller.divide prices 1000 = Ok batches
    ∧ List.concat batches = prices
    ∧ ((∀ i b, batches !! i = Some b →
          Seller.import_prices w (clock s1 + i) b client_id seller_token = Ok tt) →
       Seller.upload_prices w fuel wr client_id seller_token s
       = Some (Ok prices,
               Run (clock s1 + List.length batches)
                   (sent s1 ++ map (λ b, Seller.ImportPrices b client_id seller_token)
                                 batches)
                   (stdout s1)))
    ∧ (∀ k b e,
         batches !! k = Some b →
         (∀ i b', i < k → batches !! i = Some b' →
            Seller.import_prices w (clock s1 + i) b' client_id seller_token = Ok tt) →
         Seller.import_prices w (clock s1 + k) b client_id seller_token = Raise e →
         Seller.upload_prices w fuel wr client_id seller_token s
         = Some (Raise e,
                 Run (clock s1 + S k)
                     (sent s1 ++ map (λ b, Seller.ImportPrices b client_id seller_token)
                                   (take (S k) batches))
                     (stdout s1))).
Proof.
  intros Hget Hprices.
  destruct (divide_positive prices 1000 ltac:(lia)) as (batches & Hdiv & Hcat).
  exists batches. split_and!; [done..| |].
  - intros Hok. unfold Seller.upload_prices.
    rewrite (io_bind_ok _ _ _ _ _ Hget), Hprices. cbn [lift].
    rewrite io_ret_bind, Hdiv. cbn [lift]. rewrite io_ret_bind.
    unfold Seller.update_price.
    by rewrite (io_bind_ok _ _ _ _ _
                  (for_each_call_ok
                     (λ b, Seller.ImportPrices b client_id seller_token)
                     (λ b now, Seller.import_prices w now b client_id seller_token)
                     batches s1 Hok)).
  - intros k b e Hk Hok Hraise. unfold Seller.upload_prices.
    rewrite (io_bind_ok _ _ _ _ _ Hget), Hprices. cbn [lift].
    rewrite io_ret_bind, Hdiv. cbn [lift]. rewrite io_ret_bind.
    unfold Seller.update_price.
    by rewrite (io_bind_raise _ _ _ _ _
                  (for_each_call_raises
                     (λ b, Seller.ImportPrices b client_id seller_token)
                     (λ b now, Seller.import_prices w now b client_id seller_token)
                     batches s1 k b e Hk Hok Hraise)).
Qed.

Lemma X17_upload_prices_batches_witness :
  ∃ batches,
    Seller.divide
      [Spec.ozon_price (Sample.record "X" ">10" "1'000.00 руб.") "1'000.00 руб."] 1000
    = Ok batches
    ∧ List.concat batches
      = [Spec.ozon_price (Sample.record "X" ">10" "1'000.00 руб.") "1'000.00 руб."].
Proof.
  destruct (X17_upload_prices_batches
              (Sample.ozon_world ["X"; "Y"] [Sample.record "X" ">10" "1'000.00 руб."]) 1
              [Sample.record "X" ">10" "1'000.00 руб."] "id" "token"
              (Run 0 [] []) (Run 1 [Seller.ProductList "" "id" "token"] [])
              ["X"; "Y"]
              [Spec.ozon_price (Sample.record "X" ">10" "1'000.00 руб.") "1'000.00 руб."])
    as (batches & Hdiv & Hcat & _).
  - vm_compute. reflexivity.
  - vm_compute. reflexivity.
  - by exists batches.
Defined.

Lemma market_not_empty (warehouse_id date : string) (stocks : list Seller.Stock) :
  filter (λ stock, (Market.count <$> Market.items stock !! 0) ≠ Some 0%Z)
    (map (Spec.to_sku warehouse_id date) stocks)
  = map (Spec.to_sku warehouse_id date) (filter (λ e, Seller.stock e ≠ 0%Z) stocks).
Proof.
  induction stocks as [|e stocks IH]; [done|].
  cbn [map]. rewrite !filter_cons, IH. simpl.
  destruct (decide (Seller.stock e = 0%Z)) as [Hz|Hz].
  - rewrite decide_False by (rewrite Hz; tauto).
    by rewrite decide_False by tauto.
  - rewrite decide_True by congruence. by rewrite decide_True.
Qed.

Lemma now_bind {A} (w : Market.world) (k : string → io Market.request A)
    (s : run Market.request) :
  (Market.now w ≫= k) s = k (Market.utcnow w (clock s)) s.
Proof. reflexivity. Qed.

(** X18: the coroutine of [market.upload_stocks], once the catalog is
    fetched.  The stock entries carry the clock reading taken after the
    catalog was fetched; they are cut into batches that put together give
    the stock list back, and when every upload is answered, one request per
    batch is sent, in order.  The result pairs the entries whose count is
    not 0, in order, with the whole stock list. *)
Theorem X18_upload_stocks_batches `{Interpreter}
    (w : Market.world) (fuel : nat) (wr : list watch)
    (campaign_id market_token warehouse_id : string)
    (s s1 : run Market.request) (ids ids' : list string) (stocks : list Seller.Stock) :
  Market.get_offer_ids w fuel campaign_id market_token s = Some (Ok ids, s1) →
  Seller.create_stocks wr ids = (Ok stocks, ids') →
  let date := Market.utcnow w (clock s1) in
  let skus := map (Spec.to_sku warehouse_id date) stocks in
  ∃ batches,
    Seller.divide skus 2000 = Ok batches
    ∧ List.concat batches = skus
    ∧ ((∀ i b, batches !! i = Some b →
          Market.put_stocks w (clock s1 + i) b campaign_id market_token = Ok tt) →
       Market.upload_stocks w fuel wr campaign_id market_token warehouse_id s
       = Some (Ok (map (Spec.to_sku warehouse_id date)
                     (filter (λ e, Seller.stock e ≠ 0%Z) stocks),
                   skus),
               Run (clock s1 + List.length batches)
                   (sent s1 ++ map (λ b, Market.PutStocks b campaign_id market_token)
                                 batches)
                   (stdout s1))).
Proof.
  intros Hget Hcs date skus.
  destruct (divide_positive skus 2000 ltac:(lia)) as (batches & Hdiv & Hcat).
  exists batches. split_and!; [done..|].
  intros Hok. unfold Market.upload_stocks.
  rewrite (io_bind_ok _ _ _ _ _ Hget), now_bind. fold date.
  rewrite market_create_stocks_sim, Hcs. cbn [fst Spec.to_skus lift]. fold skus.
  rewrite io_ret_bind, Hdiv. cbn [lift]. rewrite io_ret_bind.
  unfold Market.update_stocks.
  rewrite (io_bind_ok _ _ _ _ _
             (for_each_call_ok
                (λ b, Market.PutStocks b campaign_id market_token)
                (λ b now, Market.put_stocks w now b campaign_id market_token)
                batches s1 Hok)).
  unfold skus. by rewrite market_not_empty.
Qed.

Lemma X18_upload_stocks_batches_witness :
  ∃ batches,
    Seller.divide
      (map (Spec.to_sku "w" "2024-01-01T00:00:00Z")
         [ {| Seller.stock_offer_id := "X"; Seller.stock := 100 |} ]) 2000
    = Ok batches
    ∧ List.concat batches
      = map (Spec.to_sku "w" "2024-01-01T00:00:00Z")
          [ {| Seller.stock_offer_id := "X"; Seller.stock := 100 |} ].
Proof.
  destruct (X18_upload_stocks_batches (H := Sample.interpreter)
              (Sample.yandex_world [Sample.record "X" ">10" "1'000.00 руб."]) 1
              [Sample.record "X" ">10" "1'000.00 руб."] "id" "token" "w"
              (Run 0 [] []) (Run 1 [Market.OfferMappingEntries "" "id" "token"] [])
              ["X"] [] [ {| Seller.stock_offer_id := "X"; Seller.stock := 100 |} ])
    as (batches & Hdiv & Hcat & _).
  - vm_compute. reflexivity.
  - vm_compute. reflexivity.
  - by exists batches.
Defined.

(** X19: lists are built whole before the first upload.  If
    [create_stocks] raises in the coroutine of [seller.upload_stocks], or
    [create_prices] raises in the coroutine of [market.upload_prices], the
    exception is the result and no upload request is sent: the run stops in
    the state the catalog fetch left. *)
Theorem X19_bad_record_blocks_uploads `{Interpreter} :
  (∀ (w : Seller.world) (fuel : nat) (wr : list watch) (client_id seller_token : string)
     (s s1 : run Seller.request) (ids ids' : list string) (e : exn),
     Seller.get_offer_ids w fuel client_id seller_token s = Some (Ok ids, s1) →
     Seller.create_stocks wr ids = (Raise e, ids') →
     Seller.upload_stocks w fuel wr client_id seller_token s = Some (Raise e, s1))
  ∧ (∀ (w : Market.world) (fuel : nat) (wr : list watch)
       (campaign_id market_token : string)
       (s s1 : run Market.request) (ids : list string) (e : exn),
       Market.get_offer_ids w fuel campaign_id market_token s = Some (Ok ids, s1) →
       Market.create_prices wr ids = Raise e →
       Market.upload_prices w fuel wr campaign_id market_token s = Some (Raise e, s1)).
Proof.
  split.
  - intros w fuel wr client_id seller_token s s1 ids ids' e Hget Hcs.
    unfold Seller.upload_stocks.
    by rewrite (io_bind_ok _ _ _ _ _ Hget), Hcs.
  - intros w fuel wr campaign_id market_token s s1 ids e Hget Hprices.
    unfold Market.upload_prices.
    by rewrite (io_bind_ok _ _ _ _ _ Hget), Hprices.
Qed.

Lemma X19_bad_record_blocks_uploads_witness :
  Market.upload_prices (H := Sample.interpreter)
    (Sample.yandex_world [Sample.record "X" "2" "abc"]) 1
    [Sample.record "X" "2" "abc"] "id" "token" (Run 0 [] [])
  = Some (Raise ValueError, Run 1 [Market.OfferMappingEntries "" "id" "token"] []).
Proof.
  destruct (X19_bad_record_blocks_uploads (H := Sample.interpreter)) as [_ Hmarket].
  apply (Hmarket (Sample.yandex_world [Sample.record "X" "2" "abc"]) 1
           [Sample.record "X" "2" "abc"] "id" "token" (Run 0 [] []) _ ["X"]).
  - vm_compute. reflexivity.
  - vm_compute. reflexivity.
Defined.
